(** * BayBE: the Bernoulli bandit surrogate and the acquisition dispatch

    A shallow embedding of
    - [baybe/surrogates/multi_armed_bandit.py]
      ([BernoulliMultiArmedBanditSurrogate]) and
    - [baybe/acquisition/base.py] ([AcquisitionFunction.to_botorch] and the
      deprecation hook of the structuring converter),
    with the properties of the design document stated over it.

    Conventions.  Floating-point tensors hold exact rationals ([Q]), which
    are the program's floats as long as no operation rounds; a float
    that may be not-a-number is an [option Q] with [None] for NaN.  Integer
    tensors ([torch.int]) hold [Z], with what the conversion stores for a
    value outside the 32-bit range written out.  Exceptions are values of [Exn]; methods that
    read or assign attributes of [self] run in a state-and-exception monad
    whose result pairs the final object with the outcome, so that what an
    aborted call leaves behind is visible. *)

From Stdlib Require Import ZArith QArith Lia Lqa.
From stdpp Require Import base option list gmap strings.

(** ** Exceptions and the method monad *)

Inductive Exn : Type :=
| ModelNotTrainedError
| IncompatibleSearchSpaceError
| RuntimeError   (* torch: shapes that do not broadcast or stack *)
| IndexError     (* torch: index out of range, argmax over an empty dimension *)
| ValueError     (* torch.distributions: argument outside the support; pandas: item() *)
| TypeError      (* wrong number of arguments, unhashable key *)
| KeyError
| AttributeError.

#[global] Instance Exn_eq_dec : EqDecision Exn.
Proof. solve_decision. Defined.

(** A method of an object of type [St]: it receives the object, and returns
    the object as it is left together with the exception raised or the value
    returned. *)
Definition M (St A : Type) : Type := St → St * (Exn + A).

#[global] Instance M_ret {St} : MRet (M St) := λ A a s, (s, inr a).
#[global] Instance M_bind {St} : MBind (M St) := λ A B k c s,
  match c s with
  | (s', inl e) => (s', inl e)
  | (s', inr a) => k a s'
  end.

Definition raise {St A} (e : Exn) : M St A := λ s, (s, inl e).
Definition get {St} : M St St := λ s, (s, inr s).
Definition put {St} (s' : St) : M St unit := λ _, (s', inr tt).

(** A partial library operation, failing with the exception [e]. *)
Definition orelse {St A} (o : option A) (e : Exn) : M St A :=
  match o with Some a => mret a | None => raise e end.

(** ** Numbers *)

Module Numeric.

(** Python's [float(b)] and torch's promotion of a boolean mask. *)
Definition bool_to_float (b : bool) : Q := if b then 1%Q else 0%Q.

(** Conversion of a float to a C integer: the fraction is dropped. *)
Definition trunc (q : Q) : Z := Z.quot (Qnum q) (Zpos (Qden q)).

(** The 32-bit two's complement range of [torch.int]: a value inside the
    range is kept; for a value outside it the conversion of a float stores
    the smallest integer, [-2^31]. *)
Definition cast32 (z : Z) : Z :=
  if ((- 2 ^ 31 <=? z) && (z <? 2 ^ 31))%Z then z else (- 2 ^ 31)%Z.

(** [x.to(torch.int)] on one element. *)
Definition to_int (q : Q) : Z := cast32 (trunc q).

(** The finite floats of single precision: [m * 2^e] with a significand
    of at most 24 bits (each of them is a double as well).  A sum whose
    operands and whose exact value are such numbers is the sum the program
    computes; any other sum the program rounds. *)
Definition float32 (q : Q) : Prop :=
  ∃ m e : Z, (Z.abs m < 2 ^ 24)%Z ∧ (- 149 ≤ e ≤ 104)%Z
             ∧ (q == inject_Z m * 2 ^ e)%Q.

End Numeric.

(** ** Two-dimensional tensors

    A tensor of shape [(n, w)] is the list of its [n] rows together with
    the row width [w], which is needed when there is no row. *)

Module Tensor.

Record t (A : Type) : Type := mk { width : nat; rows : list (list A) }.
Arguments mk {A} _ _.
Arguments width {A} _.
Arguments rows {A} _.

Definition nrows {A} (x : t A) : nat := length (rows x).

Definition wf {A} (x : t A) : Prop :=
  Forall (λ r, length r = width x) (rows x).

Definition wfb {A} (x : t A) : bool :=
  forallb (λ r, Nat.eqb (length r) (width x)) (rows x).

Definition map {A B} (f : A → B) (x : t A) : t B :=
  mk (width x) ((λ r : list A, f <$> r) <$> rows x).

(** Broadcasting of one dimension: equal sizes, or one of them is 1. *)
Definition broadcast_dim (a b : nat) : option nat :=
  if decide (a = b) then Some a
  else if decide (a = 1) then Some b
  else if decide (b = 1) then Some a
  else None.

(** A dimension of size 1 is repeated to the size [n]; any other is kept. *)
Definition expand {A} (n : nat) (l : list A) : list A :=
  match l with
  | [a] => replicate n a
  | _ => l
  end.

(** An elementwise binary operation with broadcasting ([x * y], [x + y]). *)
Definition broadcast2 {A B C} (f : A → B → C) (x : t A) (y : t B)
  : option (t C) :=
  n ← broadcast_dim (nrows x) (nrows y);
  w ← broadcast_dim (width x) (width y);
  Some (mk w (zip_with
                (λ rx ry, zip_with f (expand w rx) (expand w ry))
                (expand n (rows x)) (expand n (rows y)))).

(** [x.sum(axis=0)]: the sum of every column, a vector of [width x] entries. *)
Definition sum_axis0 (x : t Q) : list Q :=
  foldr (zip_with Qplus) (replicate (width x) 0%Q) (rows x).

(** [torch.vstack([a, b])] of two vectors. *)
Definition vstack2 {A} (a b : list A) : option (t A) :=
  if decide (length a = length b) then Some (mk (length a) [a; b]) else None.

(** [x.T]: entry [(j, i)] of the result is entry [(i, j)] of [x]. *)
Definition transpose {A} (x : t A) : t A :=
  mk (nrows x)
     ((λ j, omap (λ r : list A, r !! j) (rows x)) <$> seq 0 (width x)).

(** Index of the first maximal entry of a row; no index for an empty row. *)
Fixpoint argmax_from (best : Q) (ibest i : nat) (r : list Q) : nat :=
  match r with
  | [] => ibest
  | v :: r' =>
      if Qle_bool v best then argmax_from best ibest (S i) r'
      else argmax_from v i (S i) r'
  end.

Definition argmax_row (r : list Q) : option nat :=
  match r with
  | [] => None
  | v :: r' => Some (argmax_from v 0 1 r')
  end.

(** [x.argmax(-1)]: raises on a last dimension of size zero. *)
Definition argmax_last (x : t Q) : option (list nat) :=
  if decide (width x = 0) then None else mapM argmax_row (rows x).

(** [x[idx]] with an index vector: the selected rows; out of range raises. *)
Definition index_rows {A} (x : t A) (idx : list nat) : option (t A) :=
  rs ← mapM (λ i, rows x !! i) idx;
  Some (mk (width x) rs).

End Tensor.

(** ** The search space, as far as the surrogate inspects it *)

Inductive CategoricalEncoding : Type := OHE | INT.

(** Modelled from the spec: the parameter classes ([baybe.parameters]) are
    not among the sources.  Of a parameter only what the structural check of
    [_fit] looks at is kept: whether it is a [CategoricalParameter], and then
    its encoding. *)
Inductive BaybeParameter : Type :=
| CategoricalParameter (name : string) (encoding : CategoricalEncoding)
| OtherParameter (name : string).

(** Modelled from the spec: [SearchSpace] ([baybe.searchspace.core]) is not
    among the sources; it exposes its parameter list. *)
Record SearchSpace : Type := { parameters : list BaybeParameter }.

(** ** The prior *)

(** Modelled from the spec: [BetaPrior] ([baybe.priors]) is not among the
    sources; a Beta distribution given by its two shape parameters. *)
Record BetaPrior : Type := { alpha : Q; beta : Q }.

(** Modelled from the spec: [BetaPrior.to_torch], the vector of the two
    pseudo-counts. *)
Definition to_torch (p : BetaPrior) : list Q := [alpha p; beta p].

(** [v.unsqueeze(-1)]: a vector of [n] entries as a tensor of shape [(n, 1)]. *)
Definition unsqueeze_last {A} (v : list A) : Tensor.t A :=
  Tensor.mk 1 ((λ a, [a]) <$> v).

(** ** torch.distributions.Beta

    The distribution class belongs to the torch library, not to BayBE; it
    is embedded as far as the surrogate uses it.  A batch of Beta
    distributions is the list of its shape parameter pairs
    [(concentration1, concentration0)].  The constructor broadcasts its two
    arguments against each other, stacks them, and validates the result
    (argument validation being on by default): the check reshapes the
    stacked tensor, which raises [RuntimeError] when the batch has no
    element, and otherwise raises [ValueError] unless every shape parameter
    is positive.  [Beta.mode] is [self._dirichlet.mode[..., 0]], and
    [Dirichlet.mode] is
<<
    concentrationm1 = (self.concentration - 1).clamp(min=0.0)
    mode = concentrationm1 / concentrationm1.sum(-1, True)
    mask = (self.concentration < 1).all(axis=-1)
    mode[mask] = one_hot(mode[mask].argmax(axis=-1), ...).to(mode)
>>
    so the only not-a-number it yields is the quotient 0/0. *)

Module Beta.

Definition t : Type := list (Q * Q).

Definition positive (ab : Q * Q) : bool :=
  negb (Qle_bool ab.1 0) && negb (Qle_bool ab.2 0).

(** [Beta(concentration1, concentration0)] on two tensors. *)
Definition make (c1 c0 : Tensor.t Q) : Exn + t :=
  match Tensor.broadcast2 pair c1 c0 with
  | None => inl RuntimeError
  | Some ab =>
      match concat (Tensor.rows ab) with
      | [] => inl RuntimeError
      | d => if forallb positive d then inr d else inl ValueError
      end
  end.

(** [Beta] applied to an unpacked tensor: its rows are the positional
    arguments. *)
Definition make_from_rows (x : Tensor.t Q) : Exn + t :=
  match Tensor.rows x with
  | [c1; c0] => make (Tensor.mk (Tensor.width x) [c1]) (Tensor.mk (Tensor.width x) [c0])
  | _ => inl TypeError
  end.

(** Float division of non-negative numbers, as far as [mode] needs it:
    0/0 is not-a-number. *)
Definition fdiv (a b : Q) : option Q :=
  if Qeq_bool b 0 then None else Some (a / b)%Q.

Definition clamp0 (a : Q) : Q := if Qle_bool a 0 then 0%Q else a.

Definition lt1 (a : Q) : bool := negb (Qle_bool 1 a).

(** [Dirichlet.mode[..., 0]] for one distribution: the first component of
    [concentrationm1 / concentrationm1.sum()]; where both concentrations are
    below 1 (the masked case) the quotient is 0/0 in both components, its
    [argmax] is the first index, and the first component of the one-hot
    vector is 1. *)
Definition mode1 (ab : Q * Q) : option Q :=
  let a1 := clamp0 (ab.1 - 1) in
  let b1 := clamp0 (ab.2 - 1) in
  if lt1 ab.1 && lt1 ab.2 then Some 1%Q
  else fdiv a1 (a1 + b1).

Definition mode (d : t) : list (option Q) := mode1 <$> d.

End Beta.

(** ** BernoulliMultiArmedBanditSurrogate *)

Module Bandit.

(** The attributes of the surrogate: [prior], the sufficient statistics
    [_win_lose_counts] ([None] until trained), and [_searchspace], which
    the base class stores before it calls [_fit]. *)
Record Surrogate : Type := mkSurrogate {
  prior : BetaPrior;
  _win_lose_counts : option (Tensor.t Z);
  _searchspace : option SearchSpace;
}.

(** A surrogate as constructed: uniform prior unless one is given. *)
Definition default_prior : BetaPrior := {| alpha := 1; beta := 1 |}.
Definition new (p : BetaPrior) : Surrogate :=
  mkSurrogate p None None.

(** The assignment [self._win_lose_counts = c]. *)
Definition set_win_lose_counts (c : Tensor.t Z) : M Surrogate unit :=
  λ self, (mkSurrogate (prior self) (Some c) (_searchspace self), inr tt).

(** What the base class does with the search space handed to [fit]. *)
Definition with_searchspace (ss : SearchSpace) (self : Surrogate) : Surrogate :=
  mkSurrogate (prior self) (_win_lose_counts self) (Some ss).

(** [_posterior_beta_parameters].  The sum is the exact one: it is the
    float the program returns where count, pseudo-count and sum are
    floats ([Numeric.float32]), and the program's value is this sum
    rounded otherwise. *)
Definition _posterior_beta_parameters : M Surrogate (Tensor.t Q) :=
  self ← get;
  match _win_lose_counts self with
  | None => raise ModelNotTrainedError
  | Some counts =>
      orelse (Tensor.broadcast2 (λ c p, inject_Z c + p)%Q counts
                (unsqueeze_last (to_torch (prior self))))
             RuntimeError
  end.

(** [maximum_a_posteriori_per_arm] *)
Definition maximum_a_posteriori_per_arm : M Surrogate (list (option Q)) :=
  params ← _posterior_beta_parameters;
  match Beta.make_from_rows params with
  | inl e => raise e
  | inr d => mret (Beta.mode d)
  end.

(** [_posterior]: the subscripted expression is evaluated before the
    subscript, so the parameters are requested before [argmax] runs.
    [split(1, -1)] yields one column tensor per column. *)
Definition split_columns {A} (x : Tensor.t A) : list (Tensor.t A) :=
  (λ j, Tensor.mk 1 (omap (λ r : list A, (λ a, [a]) <$> r !! j) (Tensor.rows x)))
    <$> seq 0 (Tensor.width x).

Definition _posterior (candidates : Tensor.t Q) : M Surrogate Beta.t :=
  params ← _posterior_beta_parameters;
  idx ← orelse (Tensor.argmax_last candidates) IndexError;
  beta_params_for_candidates ←
    orelse (Tensor.index_rows (Tensor.transpose params) idx) IndexError;
  match split_columns beta_params_for_candidates with
  | [c1; c0] =>
      match Beta.make c1 c0 with
      | inl e => raise e
      | inr d => mret d
      end
  | _ => raise TypeError
  end.

Section Sentinels.

(** [float(_POSITIVE_VALUE_COMP)] and [float(_NEGATIVE_VALUE_COMP)]: the
    two constants are declared in [baybe.targets.binary], which is not
    among the sources. *)
Variables _POSITIVE_VALUE_COMP _NEGATIVE_VALUE_COMP : Q.

(** [(train_x * (train_y == c)).sum(axis=0)] *)
Definition masked_column_sums (train_x train_y : Tensor.t Q) (c : Q)
  : option (list Q) :=
  Tensor.sum_axis0 <$>
    Tensor.broadcast2 (λ x m, x * Numeric.bool_to_float m)%Q
      train_x (Tensor.map (λ y, Qeq_bool y c) train_y).

(** [_fit] *)
Definition _fit (train_x train_y : Tensor.t Q) : M Surrogate unit :=
  self ← get;
  match _searchspace self with
  | Some {| parameters := [CategoricalParameter _ OHE] |} => mret tt
  | _ => raise IncompatibleSearchSpaceError
  end;;
  wins ← orelse (masked_column_sums train_x train_y _POSITIVE_VALUE_COMP)
                RuntimeError;
  losses ← orelse (masked_column_sums train_x train_y _NEGATIVE_VALUE_COMP)
                  RuntimeError;
  stacked ← orelse (Tensor.vstack2 wins losses) RuntimeError;
  set_win_lose_counts (Tensor.map Numeric.to_int stacked).

End Sentinels.

End Bandit.

(** ** Python values held by configuration records and dictionaries *)

#[local] Unset Elimination Schemes.
Inductive PyValue : Type :=
| PyNone
| PyBool (b : bool)
| PyFloat (x : option Q)        (* [None] is not-a-number *)
| PyStr (s : string)
| PyList (l : list PyValue).    (* an unhashable value *)
#[local] Set Elimination Schemes.

(** ** AcquisitionFunction *)

Module Acquisition.

(** An acquisition function object: the name of its concrete class, the
    class-level tag [_abbreviation], and the attributes that [hasattr] and
    [getattr] find on it. *)
Record AcquisitionFunction : Type := mkAcqf {
  class_name : string;
  _abbreviation : string;
  attributes : gmap string PyValue;
}.

(** [is_mc]: [cls._abbreviation.startswith("q")] *)
Definition is_mc (self : AcquisitionFunction) : bool :=
  String.prefix "q" (_abbreviation self).

(** A class of [botorch.acquisition], as far as [inspect.signature] shows
    it: [signature(cls).parameters], the parameter names that a call of
    the class accepts. *)
Record BotorchClass : Type := { signature_parameters : list string }.

(** The parameters of [cls.__init__], the unbound function: the same
    with [self] in front. *)
Definition init_parameters (c : BotorchClass) : list string :=
  "self" :: signature_parameters c.

(** A data frame with numeric columns. *)
Record DataFrame : Type := { columns : list (string * list Q) }.

(** [Series.max()] of one column: not-a-number when there is no value. *)
Definition column_max (vs : list Q) : option Q :=
  match vs with
  | [] => None
  | v :: vs' => Some (foldl (λ m x, if Qle_bool m x then x else m) v vs')
  end.

(** [df.max().item()]: the maximum of the only column. *)
Definition max_item (df : DataFrame) : Exn + option Q :=
  match columns df with
  | [(_, vs)] => inr (column_max vs)
  | _ => inl ValueError
  end.

(** Modelled from the spec: [filter_attributes] ([baybe.utils.basic]) is
    not among the sources.  It keeps the attributes of the object whose
    names are parameter names of the callable, [self] and [kwargs]
    excepted; names the callable does not accept are dropped, not
    reported. *)
Definition filter_attributes (object : gmap string PyValue)
    (callable_parameters : list string) : gmap string PyValue :=
  list_to_map
    (omap (λ p, if decide (p ∈ ["self"; "kwargs"]) then None
                else (λ v, (p, v)) <$> object !! p)
          callable_parameters).

Section ToBotorch.

(** The surrogate type, the namespace [botorch.acquisition], and
    [to_tensor] of [baybe.utils.dataframe]. *)
Context {Surrogate TensorT : Type}.
Variable botorch_acquisition : gmap string BotorchClass.
Variable to_tensor : DataFrame → TensorT.

Inductive AdapterModel : Type := Adapter (surrogate : Surrogate).
Inductive MCObjective : Type := IdentityMCObjective.

(** The call into botorch with which [to_botorch] ends, with its
    arguments.  The method returns what this call returns and raises what
    it raises; what botorch's constructors do with their arguments is not
    part of the embedding, so a result [inr call] says that the method
    gets as far as this call. *)
Inductive BotorchAcqf : Type :=
| AnalyticAcqf (cls : string) (model : AdapterModel)
    (kwargs : gmap string PyValue)
| get_acquisition_function (acquisition_function_name : string)
    (model : AdapterModel) (X_observed : TensorT)
    (objective : MCObjective) (kwargs : gmap string PyValue).

(** [to_botorch] *)
Definition to_botorch (self : AcquisitionFunction) (surrogate : Surrogate)
    (train_x train_y : DataFrame) : Exn + BotorchAcqf :=
  match botorch_acquisition !! class_name self with
  | None => inl AttributeError
  | Some acqf_cls =>
      let fields_dict :=
        filter_attributes (attributes self) (init_parameters acqf_cls) in
      if negb (is_mc self) then
        match max_item train_y with
        | inl e => inl e
        | inr best_f =>
            let fields_dict :=
              if decide ("best_f" ∈ signature_parameters acqf_cls)
              then <["best_f" := PyFloat best_f]> fields_dict
              else fields_dict in
            inr (AnalyticAcqf (class_name self) (Adapter surrogate)
                   fields_dict)
        end
      else
        inr (get_acquisition_function (_abbreviation self)
               (Adapter surrogate) (to_tensor train_x)
               IdentityMCObjective fields_dict)
  end.

End ToBotorch.

(** *** The deprecation hook of the structuring converter *)

Inductive Warning : Type := DeprecationWarning (message : string).

(** The argument of a structure hook: [Union[dict, str]]. *)
Inductive Val : Type :=
| ValStr (s : string)
| ValDict (d : gmap string PyValue).

Definition UCB_DEPRECATIONS : gmap string string :=
  {[ "VarUCB" := "UpperConfidenceBound";
     "qVarUCB" := "qUpperConfidenceBound" ]}.

Definition deprecation_message (entry replacement : string) : string :=
  "The use of `" +:+ entry +:+
  "` is deprecated and will be disabled in a future version. The get the same outcome, use the new `"
  +:+ replacement +:+ "` class instead with a beta of 100.0.".

Section Hook.

(** A structure hook: it may emit warnings, and raises or returns the
    structured object. *)
Context {Cls Obj : Type}.
Definition Hook : Type := Val → Cls → list Warning * (Exn + Obj).

(** [val if isinstance(val, str) else val["type"]] *)
Definition entry_of (val : Val) : Exn + PyValue :=
  match val with
  | ValStr s => inr (PyStr s)
  | ValDict d =>
      match d !! "type" with
      | Some v => inr v
      | None => inl KeyError
      end
  end.

(** [entry in UCB_DEPRECATIONS], with the replacement when it is. *)
Definition deprecated (entry : PyValue) : Exn + option (string * string) :=
  match entry with
  | PyStr s => inr ((λ r, (s, r)) <$> UCB_DEPRECATIONS !! s)
  | PyList _ => inl TypeError
  | _ => inr None
  end.

(** [_add_deprecation_hook(hook)] *)
Definition _add_deprecation_hook (hook : Hook) : Hook :=
  λ val cls,
    match entry_of val with
    | inl e => ([], inl e)
    | inr entry =>
        match deprecated entry with
        | inl e => ([], inl e)
        | inr (Some (old, new)) =>
            let w := DeprecationWarning (deprecation_message old new) in
            let val := ValDict {[ "type" := PyStr new;
                                  "beta" := PyFloat (Some 100%Q) ]} in
            let '(ws, r) := hook val cls in
            (w :: ws, r)
        | inr None => hook val cls
        end
    end.

End Hook.

End Acquisition.

(** ** Vocabulary of the statements about the surrogate *)

Module BanditSpec.

Definition countb {A} (f : A → bool) (l : list A) : nat :=
  length (List.filter f l).

(** A one-hot row: every entry is 0 or 1, and exactly one entry is 1. *)
Definition one_hot (r : list Q) : bool :=
  forallb (λ v, Qeq_bool v 0 || Qeq_bool v 1) r
  && Nat.eqb (countb (λ v, Qeq_bool v 1) r) 1.

(** The row selects arm [j]: its indicator for [j] is 1. *)
Definition selects (j : nat) (r : list Q) : bool :=
  match r !! j with
  | Some v => Qeq_bool v 1
  | None => false
  end.

(** The outcome row (one entry) holds the value [c]. *)
Definition outcome_is (c : Q) (yr : list Q) : bool :=
  match yr with
  | [y] => Qeq_bool y c
  | _ => false
  end.

(** The number of training rows that select arm [j] and have outcome [c]. *)
Definition count_rows (train_x train_y : Tensor.t Q) (j : nat) (c : Q) : nat :=
  countb (λ rxy, selects j rxy.1 && outcome_is c rxy.2)
         (zip (Tensor.rows train_x) (Tensor.rows train_y)).

(** The number of training rows attributed to arm [j]. *)
Definition rows_of_arm (train_x : Tensor.t Q) (j : nat) : nat :=
  countb (selects j) (Tensor.rows train_x).

(** A valid training table: [n] one-hot candidate rows of the same width
    and [n] outcomes in one column, each equal to one of the sentinels. *)
Definition valid_training_table (pos neg : Q) (train_x train_y : Tensor.t Q)
  : bool :=
  Tensor.wfb train_x && Tensor.wfb train_y
  && Nat.eqb (Tensor.width train_y) 1
  && Nat.eqb (Tensor.nrows train_x) (Tensor.nrows train_y)
  && forallb one_hot (Tensor.rows train_x)
  && forallb (λ yr, outcome_is pos yr || outcome_is neg yr)
             (Tensor.rows train_y).

(** The search space is spanned by exactly one categorical parameter
    with one-hot encoding. *)
Definition single_ohe (ss : option SearchSpace) : Prop :=
  ∃ name, ss = Some {| parameters := [CategoricalParameter name OHE] |}.

(** The structural check of [_fit], as a boolean. *)
Definition passes_check (ss : option SearchSpace) : bool :=
  match ss with
  | Some {| parameters := [CategoricalParameter _ OHE] |} => true
  | _ => false
  end.

(** The sum of column [j] over a list of rows. *)
Definition colsum (j : nat) (rs : list (list Q)) : Q :=
  foldr (λ r acc, (default 0 (r !! j) + acc)%Q) 0%Q rs.

(** The sufficient statistics of a surrogate trained on [N] arms: the
    row of win counts and the row of loss counts, [N] entries each. *)
Definition trained_with (self : Bandit.Surrogate) (N : nat)
    (wins losses : list Z) : Prop :=
  Bandit._win_lose_counts self = Some (Tensor.mk N [wins; losses])
  ∧ length wins = N ∧ length losses = N.

(** The surrogates on which [_fit] has never succeeded: a surrogate as
    constructed, and one that only had search spaces stored and calls of
    [_fit] that raised. *)
Inductive never_fitted (pos neg : Q) : Bandit.Surrogate → Prop :=
| never_fitted_new (p : BetaPrior) :
    never_fitted pos neg (Bandit.new p)
| never_fitted_searchspace (ss : SearchSpace) (self : Bandit.Surrogate) :
    never_fitted pos neg self →
    never_fitted pos neg (Bandit.with_searchspace ss self)
| never_fitted_raise (train_x train_y : Tensor.t Q) (e : Exn)
    (self self' : Bandit.Surrogate) :
    never_fitted pos neg self →
    Bandit._fit pos neg train_x train_y self = (self', inl e) →
    never_fitted pos neg self'.


(** A prior is valid when both shape parameters are strictly positive. *)
Definition valid_prior (p : BetaPrior) : Prop :=
  (0 < alpha p)%Q ∧ (0 < beta p)%Q.

(** The posterior parameter [c + p] is computed without rounding: the
    count, the pseudo-count and their sum are floats. *)
Definition exact_sum (c : Z) (p : Q) : Prop :=
  Numeric.float32 (inject_Z c) ∧ Numeric.float32 p
  ∧ Numeric.float32 (inject_Z c + p).

End BanditSpec.

(** ** Vocabulary of the statements about the acquisition functions *)

Module AcquisitionSpec.
Import Acquisition.

(** [m] is the maximum of the observed outcomes [ys]: one of them, and
    not below any of them; not-a-number when nothing was observed. *)
Definition is_maximum (ys : list Q) (m : option Q) : Prop :=
  match m with
  | None => ys = []
  | Some v => v ∈ ys ∧ Forall (λ y, y <= v)%Q ys
  end.

(** The object with one more configuration field. *)
Definition with_field (k : string) (v : PyValue)
    (self : AcquisitionFunction) : AcquisitionFunction :=
  mkAcqf (class_name self) (_abbreviation self) (<[k := v]> (attributes self)).

(** The persisted configuration carries the tag [tag]: it is the bare
    tag, or a dictionary whose ["type"] entry is the tag. *)
Definition tagged (val : Val) (tag : string) : Prop :=
  val = ValStr tag ∨ ∃ d, val = ValDict d ∧ d !! "type" = Some (PyStr tag).

(** The deprecated names and their replacements, as the design document
    lists them. *)
Definition deprecated_name (old new : string) : Prop :=
  (old = "VarUCB" ∧ new = "UpperConfidenceBound")
  ∨ (old = "qVarUCB" ∧ new = "qUpperConfidenceBound").

(** The configuration of the modern replacement with the substitute
    hyperparameter. *)
Definition modern_configuration (new : string) : Val :=
  ValDict {[ "type" := PyStr new; "beta" := PyFloat (Some 100%Q) ]}.

End AcquisitionSpec.

(** ** Training tables as lists of observations *)

Module Observations.
Import BanditSpec.

(** An encoded training table: [n] one-hot candidate rows of the same width
    and [n] outcomes in one column, of whatever value. *)
Definition encoded_table (train_x train_y : Tensor.t Q) : bool :=
  Tensor.wfb train_x && Tensor.wfb train_y
  && Nat.eqb (Tensor.width train_y) 1
  && Nat.eqb (Tensor.nrows train_x) (Tensor.nrows train_y)
  && forallb one_hot (Tensor.rows train_x).

(** An observation: the candidate row and the outcome row. *)
Definition observation : Type := list Q * list Q.

(** The two tensors of a list of observations over [w] arms. *)
Definition inputs (w : nat) (obs : list observation) : Tensor.t Q :=
  Tensor.mk w (obs.*1).
Definition outcomes (obs : list observation) : Tensor.t Q :=
  Tensor.mk 1 (obs.*2).

(** The row of the stored table that counts the outcome [c]: per arm, the
    number of rows of the arm with that outcome, in 32 bits. *)
Definition count_row (train_x train_y : Tensor.t Q) (c : Q) : list Z :=
  (λ j, Numeric.cast32 (Z.of_nat (count_rows train_x train_y j c)))
    <$> seq 0 (Tensor.width train_x).

(** Entry [(i, j)] of the sufficient statistics of a surrogate. *)
Definition entry (self : Bandit.Surrogate) (i j : nat) : option Z :=
  c ← Bandit._win_lose_counts self; r ← Tensor.rows c !! i; r !! j.

(** The training table of one arm that won [n] times, for the sentinels
    1 and 0: [n] rows [[1]] and [n] outcomes [[1]]. *)
Definition repeated_win_x (n : nat) : Tensor.t Q :=
  Tensor.mk 1 (replicate n [1%Q]).
Definition repeated_win_y (n : nat) : Tensor.t Q :=
  Tensor.mk 1 (replicate n [1%Q]).

End Observations.

(** ** Validation of search space parameters
    ([baybe/searchspace/validation.py]) *)

Module Validation.

(** The exceptions the module raises. *)
Inductive Error : Type :=
| EmptySearchSpaceError
| NotImplementedError
| ValueError.

(** The column labels of a data frame: what [set(df)] and [name in df]
    range over. *)
Definition labels (df : Acquisition.DataFrame) : list string :=
  (Acquisition.columns df).*1.

Section Parameters.

(** The parameter classes are not among the sources; of a parameter the
    module reads its [name] and tests [isinstance(p, TaskParameter)]. *)
Context {P : Type}.
Variable name : P → string.
Variable is_task : P → bool.

(** [validate_parameter_names] *)
Definition validate_parameter_names (parameters : list P) : Error + unit :=
  let param_names := name <$> parameters in
  if decide (size (list_to_set param_names : gset string) ≠ length param_names)
  then inl ValueError
  else inr tt.

(** [validate_parameters] *)
Definition validate_parameters (parameters : list P) : Error + unit :=
  match parameters with
  | [] => inl EmptySearchSpaceError
  | _ =>
      if decide (1 < length (List.filter is_task parameters))
      then inl NotImplementedError
      else validate_parameter_names parameters
  end.

(** [get_transform_parameters] *)
Definition get_transform_parameters (parameters : list P)
    (df : Acquisition.DataFrame) (allow_missing allow_extra : bool)
  : Error + list P :=
  let parameter_names := name <$> parameters in
  let missing : gset string :=
    list_to_set parameter_names ∖ list_to_set (labels df) in
  if negb allow_missing && bool_decide (missing ≠ ∅) then inl ValueError
  else
    let extra : gset string :=
      list_to_set (labels df) ∖ list_to_set parameter_names in
    if negb allow_extra && bool_decide (extra ≠ ∅) then inl ValueError
    else
      inr (if allow_missing
           then filter (λ p, name p ∈ labels df) parameters
           else parameters).

End Parameters.

End Validation.

(** * Properties *)

(** ** Numbers and tensors *)

Module NumericFacts.
Import Numeric.

Lemma trunc_inject_Z (q : Q) (n : Z) : (q == inject_Z n)%Q → trunc q = n.
Proof.
  unfold Qeq, trunc, inject_Z; simpl; intros H.
  rewrite Z.mul_1_r in H. rewrite H. apply Z.quot_mul. lia.
Qed.

Lemma float32_integer (z : Z) :
  (Z.abs z < 2 ^ 24)%Z → float32 (inject_Z z).
Proof.
  intros H. exists z, 0%Z. split; [exact H|]. split; [lia|].
  change (2 ^ 0)%Q with 1%Q. by rewrite Qmult_1_r.
Qed.

Lemma cast32_small (z : Z) :
  (- 2 ^ 31 ≤ z < 2 ^ 31)%Z → cast32 z = z.
Proof.
  intros [H1 H2]. unfold cast32.
  apply Z.leb_le in H1. apply Z.ltb_lt in H2. by rewrite H1, H2.
Qed.

Lemma to_int_count (q : Q) (n : nat) :
  (q == inject_Z (Z.of_nat n))%Q → (Z.of_nat n < 2 ^ 31)%Z →
  to_int q = Z.of_nat n.
Proof.
  intros Hq Hn. unfold to_int. rewrite (trunc_inject_Z _ _ Hq).
  apply cast32_small. lia.
Qed.

End NumericFacts.

Module TensorFacts.
Import Tensor BanditSpec.

Lemma wfb_wf {A} (x : Tensor.t A) : wfb x = true → wf x.
Proof.
  unfold wfb, wf. rewrite forallb_forall, Forall_forall.
  intros H r Hr. apply Nat.eqb_eq, H. by apply list_elem_of_In.
Qed.

Lemma expand_same {A} (n : nat) (l : list A) : length l = n → expand n l = l.
Proof.
  destruct l as [|a [|b l]]; simpl; try done. by intros <-.
Qed.

Lemma broadcast_dim_same (n : nat) : broadcast_dim n n = Some n.
Proof. unfold broadcast_dim. by rewrite decide_True. Qed.

Lemma broadcast_dim_one (n : nat) : broadcast_dim n 1 = Some n.
Proof.
  unfold broadcast_dim. repeat case_decide; congruence.
Qed.

Lemma sum_rows_length (w : nat) (rs : list (list Q)) :
  Forall (λ r, length r = w) rs →
  length (foldr (zip_with Qplus) (replicate w 0%Q) rs) = w.
Proof.
  induction 1 as [|r rs Hr _ IH]; simpl.
  - apply length_replicate.
  - rewrite length_zip_with. lia.
Qed.

Lemma sum_rows_lookup (w : nat) (rs : list (list Q)) (j : nat) :
  Forall (λ r, length r = w) rs → j < w →
  foldr (zip_with Qplus) (replicate w 0%Q) rs !! j = Some (colsum j rs).
Proof.
  intros Hrs Hj. induction Hrs as [|r rs Hr Hrs IH]; simpl.
  - by apply lookup_replicate_2.
  - rewrite lookup_zip_with, IH.
    destruct (lookup_lt_is_Some_2 r j) as [v Hv]; [lia|].
    by rewrite Hv.
Qed.





End TensorFacts.

(** ** The sufficient statistics computed by [_fit] *)

Module FitFacts.
Import Tensor BanditSpec Numeric TensorFacts NumericFacts.

Lemma outcome_is_singleton (c : Q) (yr : list Q) :
  outcome_is c yr = true → length yr = 1.
Proof. by destruct yr as [|y [|??]]. Qed.

(** The masked product, row by row, when the outcomes form one column. *)
Lemma broadcast_mask (x y : Tensor.t Q) (c : Q) :
  wf x → nrows x = nrows y → width y = 1 →
  Forall (λ yr, length yr = 1) (rows y) →
  broadcast2 (λ v m, v * bool_to_float m)%Q x
    (Tensor.map (λ v, Qeq_bool v c) y)
  = Some (mk (width x)
            (zip_with (λ rx yr,
                 (λ v, v * bool_to_float (outcome_is c yr))%Q <$> rx)
               (rows x) (rows y))).
Proof.
  intros Hx Hn Hw Hy. unfold broadcast2, nrows, Tensor.map in *; simpl.
  rewrite length_fmap, Hn, broadcast_dim_same; simpl.
  rewrite Hw, broadcast_dim_one; simpl.
  do 2 f_equal.
  rewrite !expand_same by (by rewrite ?length_fmap).
  unfold wf in Hx. revert Hx Hy Hn.
  generalize (width x) as w, (rows x) as rs, (rows y) as ys.
  intros w rs. induction rs as [|r rs IH]; intros [|yr ys]; simpl; try done.
  intros Hx Hy Hn. inversion Hx as [|?? Hr Hrs]; subst.
  inversion Hy as [|?? Hyr Hys]; subst.
  f_equal; [|apply IH; auto].
  destruct yr as [|v [|??]]; try done; simpl.
  rewrite (expand_same _ r) by done.
  by rewrite zip_with_replicate_r_eq.
Qed.

Lemma countb_cons {A} (f : A → bool) (a : A) (l : list A) :
  countb f (a :: l) = if f a then S (countb f l) else countb f l.
Proof. unfold countb; simpl. by destruct (f a). Qed.

Lemma inject_Z_S (n : nat) :
  (inject_Z (Z.of_nat (S n)) == 1 + inject_Z (Z.of_nat n))%Q.
Proof.
  rewrite Nat2Z.inj_succ. unfold Z.succ. rewrite inject_Z_plus. ring.
Qed.

(** A column of the masked product sums to the number of rows that are
    selected by the mask and carry a 1 in that column. *)
Lemma colsum_masked (c : Q) (j : nat) (rs ys : list (list Q)) :
  Forall (λ r, forallb (λ v, Qeq_bool v 0 || Qeq_bool v 1) r = true) rs →
  length rs = length ys →
  (colsum j (zip_with (λ rx yr,
               (λ v, v * bool_to_float (outcome_is c yr))%Q <$> rx) rs ys)
   == inject_Z (Z.of_nat
        (countb (λ rxy, selects j rxy.1 && outcome_is c rxy.2)
                (zip rs ys))))%Q.
Proof.
  intros Hrs. revert ys.
  induction Hrs as [|r rs Hr Hrs IH]; intros [|yr ys] Hlen;
    simpl in *; try done.
  rewrite countb_cons; simpl. rewrite (IH ys) by lia. clear IH.
  rewrite list_lookup_fmap. unfold selects.
  destruct (r !! j) as [v|] eqn:Hv; simpl; [|ring].
  assert (Hv01 : Qeq_bool v 0 || Qeq_bool v 1 = true).
  { rewrite forallb_forall in Hr. apply Hr.
    apply list_elem_of_In, list_elem_of_lookup. eauto. }
  destruct (Qeq_bool v 1) eqn:H1.
  - apply Qeq_bool_eq in H1.
    destruct (outcome_is c yr); simpl.
    + rewrite inject_Z_S, H1. ring.
    + ring.
  - rewrite orb_false_r in Hv01. apply Qeq_bool_eq in Hv01.
    simpl. rewrite Hv01. ring.
Qed.

Lemma valid_training_table_inv (pos neg : Q) (x y : Tensor.t Q) :
  valid_training_table pos neg x y = true →
  wf x ∧ width y = 1 ∧ nrows x = nrows y
  ∧ Forall (λ yr, length yr = 1) (rows y)
  ∧ Forall (λ r, forallb (λ v, Qeq_bool v 0 || Qeq_bool v 1) r = true)
           (rows x)
  ∧ Forall (λ yr, outcome_is pos yr || outcome_is neg yr = true) (rows y).
Proof.
  unfold valid_training_table. rewrite !andb_true_iff.
  intros [[[[[Hx Hy] Hw] Hn] Hoh] Hout].
  apply Nat.eqb_eq in Hw, Hn.
  assert (Hout' : Forall (λ yr, outcome_is pos yr || outcome_is neg yr = true)
                    (rows y)).
  { apply Forall_forall. intros yr Hyr. rewrite forallb_forall in Hout.
    by apply Hout, list_elem_of_In. }
  repeat split; auto using wfb_wf.
  - eapply Forall_impl; [exact Hout'|]. intros yr Hyr.
    apply orb_true_iff in Hyr as [H|H]; eauto using outcome_is_singleton.
  - apply Forall_forall. intros r Hr. rewrite forallb_forall in Hoh.
    apply list_elem_of_In, Hoh in Hr. unfold one_hot in Hr.
    by apply andb_true_iff in Hr as [Hr _].
Qed.

(** On a valid table the masked column sums exist, one per arm, and each
    is the count of the rows it stands for. *)
Lemma masked_column_sums_valid (pos neg c : Q) (x y : Tensor.t Q) :
  valid_training_table pos neg x y = true →
  ∃ sums, Bandit.masked_column_sums x y c = Some sums
    ∧ length sums = width x
    ∧ ∀ j, j < width x →
        ∃ q, sums !! j = Some q
          ∧ (q == inject_Z (Z.of_nat (count_rows x y j c)))%Q.
Proof.
  intros (Hx & Hw & Hn & Hy & H01 & _)%valid_training_table_inv.
  unfold Bandit.masked_column_sums.
  rewrite broadcast_mask by done. simpl. eexists; split; [done|].
  unfold sum_axis0; simpl.
  assert (Hlen : Forall (λ r : list Q, length r = width x)
            (zip_with (λ rx yr,
               (λ v, v * bool_to_float (outcome_is c yr))%Q <$> rx)
               (rows x) (rows y))).
  { unfold wf in Hx. clear -Hx. revert Hx.
    generalize (rows y) as ys, (rows x) as rs, (width x) as w.
    intros ys rs w Hx. revert ys.
    induction Hx as [|r rs Hr Hrs IH]; intros [|yr ys]; simpl;
      constructor; auto. by rewrite length_fmap. }
  split; [by apply sum_rows_length|].
  intros j Hj. eexists; split; [by apply sum_rows_lookup|].
  by apply colsum_masked.
Qed.

Lemma single_ohe_fit_check (ss : option SearchSpace) :
  single_ohe ss →
  match ss with
  | Some {| parameters := [CategoricalParameter _ OHE] |} => true
  | _ => false
  end = true.
Proof. by intros [name ->]. Qed.

(** [_fit] on a valid table: it returns, and stores the two rows of
    column sums converted to integers. *)
Lemma fit_valid (pos neg : Q) (x y : Tensor.t Q) (self : Bandit.Surrogate) :
  valid_training_table pos neg x y = true →
  single_ohe (Bandit._searchspace self) →
  ∃ wins losses,
    Bandit.masked_column_sums x y pos = Some wins
    ∧ Bandit.masked_column_sums x y neg = Some losses
    ∧ Bandit._fit pos neg x y self
      = (Bandit.mkSurrogate (Bandit.prior self)
           (Some (mk (width x) [to_int <$> wins; to_int <$> losses]))
           (Bandit._searchspace self), inr tt).
Proof.
  intros Hv [name Hss].
  destruct (masked_column_sums_valid pos neg pos x y Hv)
    as (wins & Hwins & Hlw & _).
  destruct (masked_column_sums_valid pos neg neg x y Hv)
    as (losses & Hlosses & Hll & _).
  exists wins, losses. repeat split; try done.
  unfold Bandit._fit, mbind, M_bind, get; simpl.
  rewrite Hss, Hwins, Hlosses; simpl.
  unfold vstack2. rewrite decide_True by congruence. simpl.
  unfold Bandit.set_win_lose_counts, Tensor.map; simpl.
  by rewrite Hss, Hlw.
Qed.

Lemma countb_le_length {A} (f : A → bool) (l : list A) :
  countb f l ≤ length l.
Proof.
  induction l as [|a l IH]; [done|]. rewrite countb_cons; simpl.
  destruct (f a); lia.
Qed.

Lemma count_rows_le (x y : Tensor.t Q) (j : nat) (c : Q) :
  count_rows x y j c ≤ nrows x.
Proof.
  unfold count_rows, nrows. etrans; [apply countb_le_length|].
  rewrite length_zip. lia.
Qed.

(** With distinct sentinels every row of an arm is a win or a loss, and
    not both. *)
Lemma count_rows_split (pos neg : Q) (x y : Tensor.t Q) (j : nat) :
  ¬ (pos == neg)%Q →
  valid_training_table pos neg x y = true →
  count_rows x y j pos + count_rows x y j neg = rows_of_arm x j.
Proof.
  intros Hne (_ & _ & Hn & _ & _ & Hout)%valid_training_table_inv.
  unfold count_rows, rows_of_arm, nrows in *.
  revert Hn Hout. generalize (rows x) as rs, (rows y) as ys.
  induction rs as [|r rs IH]; intros [|yr ys] Hn Hout; simpl in *;
    try done.
  inversion Hout as [|?? Hyr Hys]; subst.
  rewrite !countb_cons; simpl.
  specialize (IH ys ltac:(lia) Hys).
  destruct (selects j r); simpl; [|done].
  destruct yr as [|v [|??]]; simpl in *; try done.
  destruct (Qeq_bool v pos) eqn:Hp, (Qeq_bool v neg) eqn:Hq;
    simpl in *; try done; try lia.
  apply Qeq_bool_eq in Hp, Hq. destruct Hne. by rewrite <- Hp, <- Hq.
Qed.

End FitFacts.

(** ** The Beta distribution *)

Module BetaFacts.
Import Beta.

Lemma Qle_bool_false (x y : Q) : Qle_bool x y = false ↔ (y < x)%Q.
Proof.
  pose proof (Qle_bool_iff x y) as H.
  destruct (Qle_bool x y); split; intros H'; try done.
  - assert (x <= y)%Q by (by apply H). lra.
  - destruct (Qlt_le_dec y x) as [?|Hle]; [done|].
    apply H in Hle. done.
Qed.

Lemma positive_spec (a b : Q) :
  positive (a, b) = true ↔ (0 < a)%Q ∧ (0 < b)%Q.
Proof.
  unfold positive; simpl.
  by rewrite andb_true_iff, !negb_true_iff, !Qle_bool_false.
Qed.

Lemma clamp0_pos (a : Q) : (0 < a)%Q → clamp0 a = a.
Proof. intros H. unfold clamp0. by rewrite (proj2 (Qle_bool_false a 0)). Qed.

Lemma clamp0_nonpos (a : Q) : (a <= 0)%Q → clamp0 a = 0%Q.
Proof. intros H. unfold clamp0. by rewrite (proj2 (Qle_bool_iff a 0)). Qed.

Lemma lt1_true (a : Q) : lt1 a = true ↔ (a < 1)%Q.
Proof. unfold lt1. by rewrite negb_true_iff, Qle_bool_false. Qed.

Lemma lt1_false (a : Q) : lt1 a = false ↔ (1 <= a)%Q.
Proof. unfold lt1. by rewrite negb_false_iff, Qle_bool_iff. Qed.

Lemma fdiv_None (a b : Q) : fdiv a b = None ↔ (b == 0)%Q.
Proof.
  unfold fdiv. destruct (Qeq_bool b 0) eqn:H.
  - by apply Qeq_bool_eq in H.
  - apply Qeq_bool_neq in H. split; [done|]. intros H'. by destruct H.
Qed.

Lemma fdiv_Some (a b : Q) :
  ¬ (b == 0)%Q → fdiv a b = Some (a / b)%Q.
Proof.
  intros H. unfold fdiv. destruct (Qeq_bool b 0) eqn:Hb; [|done].
  by apply Qeq_bool_eq in Hb.
Qed.

(** The four regimes of the shape parameters. *)
Lemma mode1_cases (a b : Q) :
  ((1 < a)%Q → (1 < b)%Q →
     ∃ v, mode1 (a, b) = Some v ∧ (v == (a - 1) / (a + b - 2))%Q)
  ∧ (mode1 (a, b) = None
     ↔ (a <= 1)%Q ∧ (b <= 1)%Q ∧ ((a == 1)%Q ∨ (b == 1)%Q))
  ∧ ((a <= 1)%Q → (1 < b)%Q →
     ∃ v, mode1 (a, b) = Some v ∧ (v == 0)%Q)
  ∧ ((1 < a)%Q → (b <= 1)%Q →
     ∃ v, mode1 (a, b) = Some v ∧ (v == 1)%Q).
Proof.
  unfold mode1; simpl.
  destruct (Qlt_le_dec 1 a) as [Ha|Ha]; destruct (Qlt_le_dec 1 b) as [Hb|Hb].
  - (* both above 1 *)
    rewrite !clamp0_pos by lra.
    rewrite (proj2 (lt1_false a)) by lra. simpl.
    rewrite fdiv_Some by lra.
    split; [|split; [|split]].
    + intros _ _. eexists; split; [done|].
      assert (Hd : (a - 1 + (b - 1) == a + b - 2)%Q) by ring.
      by rewrite Hd.
    + split; [done|]. intros (? & ? & ?). lra.
    + intros; lra.
    + intros; lra.
  - (* only a above 1 *)
    rewrite (clamp0_pos (a - 1)), (clamp0_nonpos (b - 1)) by lra.
    rewrite (proj2 (lt1_false a)) by lra. simpl.
    rewrite fdiv_Some by lra.
    split; [|split; [|split]].
    + intros; lra.
    + split; [done|]. intros (? & ? & ?). lra.
    + intros; lra.
    + intros _ _. eexists; split; [done|]. field. lra.
  - (* only b above 1 *)
    rewrite (clamp0_nonpos (a - 1)), (clamp0_pos (b - 1)) by lra.
    rewrite (proj2 (lt1_false b)) by lra. rewrite andb_false_r.
    rewrite fdiv_Some by lra.
    split; [|split; [|split]].
    + intros; lra.
    + split; [done|]. intros (? & ? & ?). lra.
    + intros _ _. eexists; split; [done|]. field. lra.
    + intros; lra.
  - (* neither above 1 *)
    rewrite !clamp0_nonpos by lra.
    split; [intros; lra|]. split; [|split; intros; lra].
    destruct (lt1 a) eqn:Hla; destruct (lt1 b) eqn:Hlb; simpl.
    + apply lt1_true in Hla, Hlb. split; [done|].
      intros (_ & _ & [H|H]); lra.
    + apply lt1_true in Hla. apply lt1_false in Hlb.
      rewrite (proj2 (fdiv_None 0 (0 + 0))) by lra.
      split; [|done]. intros _. repeat split; lra.
    + apply lt1_false in Hla.
      rewrite (proj2 (fdiv_None 0 (0 + 0))) by lra.
      split; [|done]. intros _. repeat split; lra.
    + apply lt1_false in Hla.
      rewrite (proj2 (fdiv_None 0 (0 + 0))) by lra.
      split; [|done]. intros _. repeat split; lra.
Qed.

(** The constructor on two vectors of the same length. *)
Lemma make_from_rows_two (N : nat) (a b : list Q) :
  length a = N → length b = N →
  make_from_rows (Tensor.mk N [a; b])
  = match zip a b with
    | [] => inl RuntimeError
    | d => if forallb positive d then inr d else inl ValueError
    end.
Proof.
  intros Ha Hb. unfold make_from_rows, make, Tensor.broadcast2; simpl.
  rewrite TensorFacts.broadcast_dim_same; simpl.
  rewrite !TensorFacts.expand_same by done.
  by rewrite app_nil_r.
Qed.


(** A batch that is not empty and holds positive parameters only is
    accepted. *)
Lemma make_from_rows_accepted (N : nat) (a b : list Q) :
  length a = N → length b = N → 0 < N →
  forallb positive (zip a b) = true →
  make_from_rows (Tensor.mk N [a; b]) = inr (zip a b).
Proof.
  intros Ha Hb HN Hpos. rewrite (make_from_rows_two N) by done.
  destruct a as [|x a]; [simpl in Ha; lia|].
  destruct b as [|y b]; [simpl in Hb; lia|].
  simpl in *. by rewrite Hpos.
Qed.


Lemma forallb_positive_zip (a b : list Q) :
  Forall (λ v, 0 < v)%Q a → Forall (λ v, 0 < v)%Q b →
  forallb positive (zip a b) = true.
Proof.
  intros Ha. revert b. induction Ha as [|x a Hx Ha IH]; intros b Hb;
    [done|].
  destruct Hb as [|y b Hy Hb]; [done|]. simpl.
  rewrite (IH b Hb), andb_true_r. by apply positive_spec.
Qed.

End BetaFacts.

Module BanditProps.
Import Tensor BanditSpec Numeric TensorFacts NumericFacts FitFacts.
Import Bandit.

Ltac run_method :=
  unfold mbind, M_bind, mret, M_ret, get, put, raise, orelse in *;
  simpl in *.

(** [_fit] without the monad: the check, the three tensor operations
    that can fail, and the assignment. *)
Lemma fit_unfold (pos neg : Q) (x y : Tensor.t Q) (self : Surrogate) :
  _fit pos neg x y self =
  if passes_check (_searchspace self) then
    match masked_column_sums x y pos with
    | None => (self, inl RuntimeError)
    | Some wins =>
        match masked_column_sums x y neg with
        | None => (self, inl RuntimeError)
        | Some losses =>
            match vstack2 wins losses with
            | None => (self, inl RuntimeError)
            | Some stacked =>
                (mkSurrogate (prior self)
                   (Some (Tensor.map to_int stacked)) (_searchspace self),
                 inr tt)
            end
        end
    end
  else (self, inl IncompatibleSearchSpaceError).
Proof.
  unfold _fit, set_win_lose_counts. run_method.
  destruct (_searchspace self) as [[[|[n [|]|n] [|??]]]|] eqn:Hss; simpl;
    try reflexivity.
  destruct (masked_column_sums x y pos); simpl; [|done].
  destruct (masked_column_sums x y neg); simpl; [|done].
  destruct (vstack2 _ _); run_method; by rewrite ?Hss.
Qed.

(** [_fit] either raises and leaves the surrogate as it was, or returns
    and has replaced nothing but the statistics. *)
Lemma fit_cases (pos neg : Q) (x y : Tensor.t Q) (self : Surrogate) :
  (∃ e, _fit pos neg x y self = (self, inl e))
  ∨ (∃ c, _fit pos neg x y self
          = (mkSurrogate (prior self) (Some c) (_searchspace self), inr tt)).
Proof.
  rewrite fit_unfold. repeat case_match; eauto.
Qed.

Lemma fit_raise_unchanged (pos neg : Q) (x y : Tensor.t Q)
    (self self' : Surrogate) (e : Exn) :
  _fit pos neg x y self = (self', inl e) → self' = self.
Proof.
  destruct (fit_cases pos neg x y self) as [[e' H]|[c H]]; rewrite H;
    congruence.
Qed.

Lemma never_fitted_untrained (pos neg : Q) (self : Surrogate) :
  never_fitted pos neg self → _win_lose_counts self = None.
Proof.
  induction 1 as [p|ss self _ IH|x y e self self' _ IH Hfit]; try done.
  by rewrite (fit_raise_unchanged _ _ _ _ _ _ _ Hfit).
Qed.

(** C1 (as amended).  On every valid training table (one-hot candidate rows, outcomes
    equal to the positive or the negative sentinel, the two sentinels
    distinct, fewer than 2^31 rows so that the counts fit the 32-bit
    integer type of the table) and with a search space that passes the
    structural check, [_fit] stores a table of two rows of [N] integers,
    [N] the row width: entry [j] of row 0 is the number of training rows
    that select arm [j] and have the positive sentinel as outcome, entry
    [j] of row 1 counts the rows of arm [j] with the negative sentinel,
    every entry is non-negative, and the two entries of an arm add up to
    the number of training rows of that arm. *)
Theorem fit_sufficient_statistics (pos neg : Q) (train_x train_y : Tensor.t Q)
    (self : Surrogate) :
  ¬ (pos == neg)%Q →
  valid_training_table pos neg train_x train_y = true →
  single_ohe (_searchspace self) →
  (Z.of_nat (nrows train_x) < 2 ^ 31)%Z →
  ∃ wins losses self',
    _fit pos neg train_x train_y self = (self', inr tt)
    ∧ _win_lose_counts self' = Some (mk (width train_x) [wins; losses])
    ∧ length wins = width train_x ∧ length losses = width train_x
    ∧ Forall (λ c, 0 ≤ c)%Z wins ∧ Forall (λ c, 0 ≤ c)%Z losses
    ∧ ∀ j, j < width train_x →
        wins !! j = Some (Z.of_nat (count_rows train_x train_y j pos))
        ∧ losses !! j = Some (Z.of_nat (count_rows train_x train_y j neg))
        ∧ count_rows train_x train_y j pos + count_rows train_x train_y j neg
          = rows_of_arm train_x j.
Proof.
  intros Hne Hv Hss Hsize.
  destruct (fit_valid pos neg train_x train_y self Hv Hss)
    as (wq & lq & Hwq & Hlq & Hfit).
  destruct (masked_column_sums_valid pos neg pos _ _ Hv)
    as (wq' & Hwq' & Hlw & Hw).
  destruct (masked_column_sums_valid pos neg neg _ _ Hv)
    as (lq' & Hlq' & Hll & Hl).
  assert (wq' = wq) as -> by congruence.
  assert (lq' = lq) as -> by congruence.
  assert (Hlook : ∀ (c : Q) (sums : list Q) (j : nat),
    (∀ j, j < width train_x → ∃ q, sums !! j = Some q
       ∧ (q == inject_Z (Z.of_nat (count_rows train_x train_y j c)))%Q) →
    j < width train_x →
    (to_int <$> sums) !! j
    = Some (Z.of_nat (count_rows train_x train_y j c))).
  { intros c sums j Hs Hj. destruct (Hs j Hj) as (q & Hq & Hqc).
    rewrite list_lookup_fmap, Hq; simpl. f_equal.
    apply to_int_count; [done|].
    pose proof (count_rows_le train_x train_y j c). lia. }
  assert (Hnonneg : ∀ (c : Q) (sums : list Q),
    length sums = width train_x →
    (∀ j, j < width train_x → ∃ q, sums !! j = Some q
       ∧ (q == inject_Z (Z.of_nat (count_rows train_x train_y j c)))%Q) →
    Forall (λ c, 0 ≤ c)%Z (to_int <$> sums)).
  { intros c sums Hlen Hs. apply Forall_lookup. intros j v Hv'.
    assert (Hj : j < width train_x).
    { apply lookup_lt_Some in Hv'. by rewrite length_fmap, Hlen in Hv'. }
    rewrite (Hlook c sums j Hs Hj) in Hv'. inversion Hv'. lia. }
  exists (to_int <$> wq), (to_int <$> lq). eexists.
  split; [exact Hfit|]. simpl. rewrite !length_fmap.
  repeat split; eauto using count_rows_split.
Qed.

(** A table of four observations over two arms, with sentinels 1 and 0. *)
Lemma fit_sufficient_statistics_witness :
  ∃ wins losses self',
    _fit 1 0 (mk 2 [[1; 0]; [1; 0]; [0; 1]; [1; 0]]%Q)
             (mk 1 [[1]; [0]; [1]; [1]]%Q)
      (with_searchspace {| parameters := [CategoricalParameter "arm" OHE] |}
         (new default_prior))
    = (self', inr tt)
    ∧ _win_lose_counts self' = Some (mk 2 [wins; losses])
    ∧ wins = [2; 1]%Z ∧ losses = [1; 0]%Z.
Proof.
  destruct (fit_sufficient_statistics 1 0
              (mk 2 [[1; 0]; [1; 0]; [0; 1]; [1; 0]]%Q)
              (mk 1 [[1]; [0]; [1]; [1]]%Q)
              (with_searchspace
                 {| parameters := [CategoricalParameter "arm" OHE] |}
                 (new default_prior)))
    as (wins & losses & self' & Hfit & Hc & _).
  - by vm_compute.
  - by vm_compute.
  - by eexists.
  - by vm_compute.
  - exists wins, losses, self'. split; [exact Hfit|]. split; [exact Hc|].
    vm_compute in Hfit. inversion Hfit; subst self'.
    vm_compute in Hc. by inversion Hc.
Defined.

(** The posterior parameters of a trained surrogate, row by row. *)
Lemma posterior_beta_parameters_trained (self : Surrogate) (N : nat)
    (wins losses : list Z) :
  trained_with self N wins losses →
  _posterior_beta_parameters self
  = (self, inr (mk N [(λ c, inject_Z c + alpha (prior self))%Q <$> wins;
                      (λ c, inject_Z c + beta (prior self))%Q <$> losses])).
Proof.
  intros (Hc & Hw & Hl).
  unfold _posterior_beta_parameters, mbind, M_bind, get; simpl.
  rewrite Hc. unfold broadcast2, nrows; simpl.
  rewrite broadcast_dim_one; simpl.
  rewrite !(expand_same _ wins), !(expand_same _ losses) by done.
  by rewrite !zip_with_replicate_r_eq by done.
Qed.

Lemma count_plus_prior_pos (c : Z) (p : Q) :
  (0 ≤ c)%Z → (0 < p)%Q → (0 < inject_Z c + p)%Q.
Proof.
  intros Hc Hp. apply Qlt_le_trans with (0 + p)%Q.
  - by rewrite Qplus_0_l.
  - apply Qplus_le_l. unfold Qle; simpl. lia.
Qed.

Lemma posterior_beta_parameters_untrained (self : Surrogate) :
  _win_lose_counts self = None →
  _posterior_beta_parameters self = (self, inl ModelNotTrainedError).
Proof.
  intros H. unfold _posterior_beta_parameters. run_method. by rewrite H.
Qed.

Lemma posterior_beta_parameters_error (self self' : Surrogate) :
  _posterior_beta_parameters self = (self', inl ModelNotTrainedError) →
  _win_lose_counts self = None.
Proof.
  unfold _posterior_beta_parameters. run_method.
  destruct (_win_lose_counts self); [|done].
  by case_match.
Qed.

Lemma posterior_beta_parameters_pure (self self' : Surrogate)
    (r : Exn + Tensor.t Q) :
  _posterior_beta_parameters self = (self', r) → self' = self.
Proof.
  unfold _posterior_beta_parameters. run_method.
  repeat case_match; run_method; congruence.
Qed.

(** C5.  On a surrogate on which [_fit] has never succeeded, [_posterior]
    (for any candidates) and [maximum_a_posteriori_per_arm] raise
    [ModelNotTrainedError]; and each of the two raises
    [ModelNotTrainedError] exactly when the sufficient statistics are
    absent. *)
Theorem not_trained_error (pos neg : Q) (self : Surrogate)
    (candidates : Tensor.t Q) :
  (never_fitted pos neg self →
     _posterior candidates self = (self, inl ModelNotTrainedError)
     ∧ maximum_a_posteriori_per_arm self = (self, inl ModelNotTrainedError))
  ∧ ((_posterior candidates self).2 = inl ModelNotTrainedError
     ↔ _win_lose_counts self = None)
  ∧ ((maximum_a_posteriori_per_arm self).2 = inl ModelNotTrainedError
     ↔ _win_lose_counts self = None).
Proof.
  assert (Hnone : _win_lose_counts self = None →
    _posterior candidates self = (self, inl ModelNotTrainedError)
    ∧ maximum_a_posteriori_per_arm self = (self, inl ModelNotTrainedError)).
  { intros H%posterior_beta_parameters_untrained.
    unfold _posterior, maximum_a_posteriori_per_arm. run_method.
    by rewrite H. }
  split; [|split].
  - by intros H%never_fitted_untrained%Hnone.
  - split; [|by intros [-> _]%Hnone].
    unfold _posterior. run_method.
    destruct (_posterior_beta_parameters self) as [s' [e|params]] eqn:Hp;
      simpl.
    + intros [= ->]. by apply posterior_beta_parameters_error in Hp.
    + repeat (case_match; simpl; try done).
      all: unfold Beta.make in *; repeat case_match; run_method;
        intros; simplify_eq.
  - split; [|by intros [_ ->]%Hnone].
    unfold maximum_a_posteriori_per_arm. run_method.
    destruct (_posterior_beta_parameters self) as [s' [e|params]] eqn:Hp;
      simpl.
    + intros [= ->]. by apply posterior_beta_parameters_error in Hp.
    + repeat (case_match; simpl; try done).
      all: unfold Beta.make_from_rows, Beta.make in *;
        repeat case_match; run_method; intros; simplify_eq.
Qed.

(** A surrogate that was constructed, given a search space of two
    parameters, and on which [_fit] then raised. *)
Lemma not_trained_error_witness :
  let ss := {| parameters := [CategoricalParameter "a" OHE;
                              CategoricalParameter "b" OHE] |} in
  let self := with_searchspace ss (new default_prior) in
  _posterior (mk 2 [[1; 0]]%Q) self = (self, inl ModelNotTrainedError)
  ∧ maximum_a_posteriori_per_arm self = (self, inl ModelNotTrainedError).
Proof.
  intros ss self.
  apply (proj1 (not_trained_error 1 0 self (mk 2 [[1; 0]]%Q))).
  apply (never_fitted_raise 1 0 (mk 2 [[1; 0]]%Q) (mk 1 [[1]]%Q)
           IncompatibleSearchSpaceError self self).
  - apply never_fitted_searchspace, never_fitted_new.
  - reflexivity.
Defined.

Lemma passes_check_single_ohe (ss : option SearchSpace) :
  passes_check ss = true ↔ single_ohe ss.
Proof.
  unfold single_ohe. split.
  - destruct ss as [[[|[n [|]|n] [|??]]]|]; simpl; try done. eauto.
  - by intros [n ->].
Qed.

(** C6.  [_fit] raises [IncompatibleSearchSpaceError] if and only if the
    search space stored for the call is not spanned by exactly one
    categorical parameter with one-hot encoding; in particular it does
    with a search space of two categorical parameters, whatever their
    encodings. *)
Theorem fit_incompatible_searchspace (pos neg : Q)
    (train_x train_y : Tensor.t Q) (self : Surrogate) :
  ((_fit pos neg train_x train_y self).2 = inl IncompatibleSearchSpaceError
   ↔ ¬ single_ohe (_searchspace self))
  ∧ ∀ n1 e1 n2 e2,
      (_fit pos neg train_x train_y
         (with_searchspace
            {| parameters := [CategoricalParameter n1 e1;
                              CategoricalParameter n2 e2] |} self)).2
      = inl IncompatibleSearchSpaceError.
Proof.
  split.
  - rewrite fit_unfold, <- passes_check_single_ohe.
    destruct (passes_check (_searchspace self)); simpl.
    + split; [|done]. repeat case_match; simpl; congruence.
    + split; [congruence|done].
  - intros n1 e1 n2 e2. rewrite fit_unfold. simpl. by destruct e1.
Qed.

(** C10.  When the structural check fails, [_fit] raises
    [IncompatibleSearchSpaceError] before it assigns anything; and
    whenever [_fit] raises it, the surrogate is left exactly as it was
    before the call, its sufficient statistics included: absent if they
    were absent, the previous counts otherwise. *)
Theorem fit_atomic_on_incompatible (pos neg : Q)
    (train_x train_y : Tensor.t Q) (self : Surrogate) :
  (¬ single_ohe (_searchspace self) →
   _fit pos neg train_x train_y self
   = (self, inl IncompatibleSearchSpaceError))
  ∧ ∀ self',
      _fit pos neg train_x train_y self
      = (self', inl IncompatibleSearchSpaceError) →
      self' = self ∧ _win_lose_counts self' = _win_lose_counts self.
Proof.
  split.
  - rewrite <- passes_check_single_ohe, fit_unfold.
    by destruct (passes_check (_searchspace self)).
  - by intros self' ->%fit_raise_unchanged.
Qed.

(** A trained surrogate with counts [3, 1] and [0, 2], then handed a
    search space of two parameters: the call raises and the counts stay;
    and an untrained one stays untrained. *)
Lemma fit_atomic_on_incompatible_witness :
  let ss := {| parameters := [CategoricalParameter "a" OHE;
                              CategoricalParameter "b" OHE] |} in
  let self := mkSurrogate default_prior (Some (mk 2 [[3; 1]; [0; 2]]%Z))
                (Some ss) in
  let x := mk 2 [[1; 0]]%Q in
  let y := mk 1 [[1]]%Q in
  (∃ self', _fit 1 0 x y self = (self', inl IncompatibleSearchSpaceError)
     ∧ _win_lose_counts self' = Some (mk 2 [[3; 1]; [0; 2]]%Z))
  ∧ (∃ self', _fit 1 0 x y (with_searchspace ss (new default_prior))
              = (self', inl IncompatibleSearchSpaceError)
     ∧ _win_lose_counts self' = None).
Proof.
  intros ss self x y. split.
  - exists self.
    destruct (fit_atomic_on_incompatible 1 0 x y self) as [Hraise Hsame].
    assert (Hr : _fit 1 0 x y self = (self, inl IncompatibleSearchSpaceError)).
    { apply Hraise. by intros [n [=]]. }
    split; [exact Hr|].
    destruct (Hsame self Hr) as [_ Hc]. etrans; [exact Hc|reflexivity].
  - exists (with_searchspace ss (new default_prior)).
    destruct (fit_atomic_on_incompatible 1 0 x y
                (with_searchspace ss (new default_prior)))
      as [Hraise Hsame].
    assert (Hr : _fit 1 0 x y (with_searchspace ss (new default_prior))
                 = (with_searchspace ss (new default_prior),
                    inl IncompatibleSearchSpaceError)).
    { apply Hraise. by intros [n [=]]. }
    split; [exact Hr|].
    destruct (Hsame _ Hr) as [_ Hc]. etrans; [exact Hc|reflexivity].
Defined.

(** C4.  Let A and B be valid training tables, each fitted with a search
    space that passes the structural check.  Fitting A and then B leaves
    the same sufficient statistics (indeed the same surrogate) as fitting
    B alone on a freshly constructed surrogate with the same prior; all
    three calls return. *)
Theorem refit_overwrites (pos neg : Q) (self : Surrogate)
    (xA yA xB yB : Tensor.t Q) (ssB : SearchSpace) :
  valid_training_table pos neg xA yA = true →
  single_ohe (_searchspace self) →
  valid_training_table pos neg xB yB = true →
  single_ohe (Some ssB) →
  ∃ selfA selfAB selfB,
    _fit pos neg xA yA self = (selfA, inr tt)
    ∧ _fit pos neg xB yB (with_searchspace ssB selfA) = (selfAB, inr tt)
    ∧ _fit pos neg xB yB (with_searchspace ssB (new (prior self)))
      = (selfB, inr tt)
    ∧ _win_lose_counts selfAB = _win_lose_counts selfB
    ∧ is_Some (_win_lose_counts selfB)
    ∧ selfAB = selfB.
Proof.
  intros HA HssA HB HssB.
  destruct (fit_valid pos neg xA yA self HA HssA)
    as (wA & lA & _ & _ & HfitA).
  destruct (fit_valid pos neg xB yB
              (with_searchspace ssB
                 (mkSurrogate (prior self)
                    (Some (mk (width xA) [to_int <$> wA; to_int <$> lA]))
                    (_searchspace self))) HB HssB)
    as (wB & lB & HwB & HlB & HfitAB).
  destruct (fit_valid pos neg xB yB
              (with_searchspace ssB (new (prior self))) HB HssB)
    as (wB' & lB' & HwB' & HlB' & HfitB).
  assert (wB' = wB) as -> by congruence.
  assert (lB' = lB) as -> by congruence.
  eexists _, _, _. split; [exact HfitA|].
  split; [exact HfitAB|]. split; [exact HfitB|]. simpl. eauto.
Qed.

(** Table A has two wins of arm 0; table B has one loss of arm 1. *)
Lemma refit_overwrites_witness :
  let ss := {| parameters := [CategoricalParameter "arm" OHE] |} in
  let self := with_searchspace ss (new default_prior) in
  ∃ selfA selfAB selfB,
    _fit 1 0 (mk 2 [[1; 0]; [1; 0]]%Q) (mk 1 [[1]; [1]]%Q) self
      = (selfA, inr tt)
    ∧ _fit 1 0 (mk 2 [[0; 1]]%Q) (mk 1 [[0]]%Q) (with_searchspace ss selfA)
      = (selfAB, inr tt)
    ∧ _fit 1 0 (mk 2 [[0; 1]]%Q) (mk 1 [[0]]%Q)
        (with_searchspace ss (new (prior self)))
      = (selfB, inr tt)
    ∧ _win_lose_counts selfAB = _win_lose_counts selfB
    ∧ is_Some (_win_lose_counts selfB)
    ∧ selfAB = selfB.
Proof.
  intros ss self.
  apply (refit_overwrites 1 0 self (mk 2 [[1; 0]; [1; 0]]%Q)
           (mk 1 [[1]; [1]]%Q) (mk 2 [[0; 1]]%Q) (mk 1 [[0]]%Q) ss).
  - by vm_compute.
  - by eexists.
  - by vm_compute.
  - by eexists.
Defined.

(** The posterior shape parameters of a trained surrogate under a valid
    prior are accepted by the distribution's constructor. *)
Lemma posterior_parameters_positive (p : BetaPrior) (wins losses : list Z) :
  valid_prior p →
  Forall (λ c, 0 ≤ c)%Z wins → Forall (λ c, 0 ≤ c)%Z losses →
  forallb Beta.positive
    (zip ((λ c, inject_Z c + alpha p)%Q <$> wins)
         ((λ c, inject_Z c + beta p)%Q <$> losses)) = true.
Proof.
  intros [Ha Hb] Hw Hl. apply BetaFacts.forallb_positive_zip.
  - apply Forall_fmap. eapply Forall_impl; [exact Hw|].
    intros c Hc; simpl in *. by apply count_plus_prior_pos.
  - apply Forall_fmap. eapply Forall_impl; [exact Hl|].
    intros c Hc; simpl in *. by apply count_plus_prior_pos.
Qed.

Lemma maximum_a_posteriori_trained (self : Surrogate) (N : nat)
    (wins losses : list Z) :
  trained_with self N wins losses →
  0 < N →
  valid_prior (prior self) →
  Forall (λ c, 0 ≤ c)%Z wins → Forall (λ c, 0 ≤ c)%Z losses →
  maximum_a_posteriori_per_arm self
  = (self, inr (Beta.mode1 <$>
                  zip ((λ c, inject_Z c + alpha (prior self))%Q <$> wins)
                      ((λ c, inject_Z c + beta (prior self))%Q <$> losses))).
Proof.
  intros Ht HN Hp Hw Hl. pose proof Ht as (_ & Hlw & Hll).
  unfold maximum_a_posteriori_per_arm. run_method.
  rewrite (posterior_beta_parameters_trained _ _ _ _ Ht).
  rewrite (BetaFacts.make_from_rows_accepted N);
    [done|by rewrite length_fmap|by rewrite length_fmap|done|].
  by apply posterior_parameters_positive.
Qed.

(** C3 (as amended).  For a trained surrogate with a valid prior and
    non-negative counts, [maximum_a_posteriori_per_arm] returns one value
    per arm.  For an arm whose posterior shape parameters [a] (win count
    plus prior alpha) and [b] (loss count plus prior beta) are computed
    without rounding: the value is [(a - 1) / (a + b - 2)] when both
    exceed 1; it is the number 0 when [a <= 1 < b] and the number 1 when
    [b <= 1 < a]; it is not-a-number when [a = b = 1].  Nothing is said of
    the remaining arms, those with both parameters at most 1 and one of
    them below 1. *)
Theorem maximum_a_posteriori_mode (self : Surrogate) (N : nat)
    (wins losses : list Z) (j : nat) (w l : Z) :
  trained_with self N wins losses →
  valid_prior (prior self) →
  Forall (λ c, 0 ≤ c)%Z wins → Forall (λ c, 0 ≤ c)%Z losses →
  wins !! j = Some w → losses !! j = Some l →
  exact_sum w (alpha (prior self)) → exact_sum l (beta (prior self)) →
  let a := (inject_Z w + alpha (prior self))%Q in
  let b := (inject_Z l + beta (prior self))%Q in
  ∃ modes m,
    maximum_a_posteriori_per_arm self = (self, inr modes)
    ∧ length modes = N
    ∧ modes !! j = Some m
    ∧ ((1 < a)%Q → (1 < b)%Q →
         ∃ v, m = Some v ∧ (v == (a - 1) / (a + b - 2))%Q)
    ∧ ((a <= 1)%Q → (1 < b)%Q → ∃ v, m = Some v ∧ (v == 0)%Q)
    ∧ ((1 < a)%Q → (b <= 1)%Q → ∃ v, m = Some v ∧ (v == 1)%Q)
    ∧ ((a == 1)%Q → (b == 1)%Q → m = None).
Proof.
  intros Ht Hp Hw Hl Hjw Hjl _ _ a b. pose proof Ht as (_ & Hlw & Hll).
  assert (HN : 0 < N) by (apply lookup_lt_Some in Hjw; lia).
  destruct (BetaFacts.mode1_cases a b) as (Hint & Hnan & Hzero & Hone).
  eexists _, (Beta.mode1 (a, b)).
  split; [by apply (maximum_a_posteriori_trained self N)|].
  split; [by rewrite length_fmap, length_zip, !length_fmap, Hlw, Hll, Nat.min_id|].
  split; [|repeat split; try done].
  - rewrite list_lookup_fmap, lookup_zip_with, !list_lookup_fmap, Hjw, Hjl.
    done.
  - intros Ha Hb. apply Hnan. repeat split; [lra|lra|by left].
Qed.

(** Wins [5, 0] and losses [2, 0] under the uniform prior: the mode of
    arm 0 is 5/7, and arm 1, with parameters (1, 1), has none. *)
Lemma maximum_a_posteriori_mode_witness :
  let self := mkSurrogate default_prior (Some (mk 2 [[5; 0]; [2; 0]]%Z))
                None in
  ∃ modes v,
    maximum_a_posteriori_per_arm self = (self, inr modes)
    ∧ modes !! 0 = Some (Some v) ∧ (v == 5 # 7)%Q
    ∧ modes !! 1 = Some None.
Proof.
  intros self.
  assert (Ht : trained_with self 2 [5; 0]%Z [2; 0]%Z) by (by repeat split).
  assert (Hp : valid_prior (prior self)) by (by split).
  assert (Hw : Forall (λ c, 0 ≤ c)%Z [5; 0]%Z) by (repeat constructor; lia).
  assert (Hl : Forall (λ c, 0 ≤ c)%Z [2; 0]%Z) by (repeat constructor; lia).
  assert (He : ∀ c : Z, (0 ≤ c < 10)%Z → exact_sum c 1).
  { intros c Hc. repeat split.
    - apply NumericFacts.float32_integer. lia.
    - apply (NumericFacts.float32_integer 1). lia.
    - exists (c + 1)%Z, 0%Z. split; [lia|]. split; [lia|].
      change (2 ^ 0)%Q with 1%Q. rewrite Qmult_1_r, inject_Z_plus.
      reflexivity. }
  destruct (maximum_a_posteriori_mode self 2 _ _ 0 5%Z 2%Z Ht Hp Hw Hl
              eq_refl eq_refl)
    as (modes & m & Hmap & _ & Hm & Hint & _); [apply He; lia ..|].
  destruct (maximum_a_posteriori_mode self 2 _ _ 1 0%Z 0%Z Ht Hp Hw Hl
              eq_refl eq_refl)
    as (modes' & m' & Hmap' & _ & Hm' & _ & _ & _ & Hnan);
    [apply He; lia ..|].
  assert (modes' = modes) as -> by congruence.
  destruct Hint as (v & -> & Hv); [by vm_compute|by vm_compute|].
  exists modes, v. split; [exact Hmap|]. split; [exact Hm|].
  split; [by rewrite Hv|].
  rewrite Hm'. do 2 f_equal. apply Hnan; by vm_compute.
Defined.

(** C3, as stated, fails: the value is not reported as undefined whenever
    a posterior shape parameter is at most 1.  With no win and two losses
    under the uniform prior the parameters are (1, 3) and the value is the
    number 0. *)
Lemma maximum_a_posteriori_undefined_counterexample :
  ¬ (∀ (self : Surrogate) (N : nat) (wins losses : list Z)
       (modes : list (option Q)) (j : nat) (w l : Z),
       trained_with self N wins losses →
       valid_prior (prior self) →
       Forall (λ c, 0 ≤ c)%Z wins → Forall (λ c, 0 ≤ c)%Z losses →
       maximum_a_posteriori_per_arm self = (self, inr modes) →
       wins !! j = Some w → losses !! j = Some l →
       ¬ ((1 < inject_Z w + alpha (prior self))%Q
          ∧ (1 < inject_Z l + beta (prior self))%Q) →
       modes !! j = Some None).
Proof.
  intros H.
  specialize (H (mkSurrogate default_prior (Some (mk 1 [[0]; [2]]%Z)) None)
                1 [0]%Z [2]%Z [Some (0 # 2)] 0 0%Z 2%Z).
  assert (Hc : [Some (0 # 2)] !! 0 = Some (@None Q)); [|done].
  apply H.
  - by repeat split.
  - by split.
  - repeat constructor; lia.
  - repeat constructor; lia.
  - by vm_compute.
  - reflexivity.
  - reflexivity.
  - intros [Ha _]. by vm_compute in Ha.
Qed.

(** *** The posterior query *)

Section Posterior.

Variables (p : BetaPrior) (N : nat) (wins losses : list Z).
Hypotheses (Hlw : length wins = N) (Hll : length losses = N).

Let a : list Q := (λ c, inject_Z c + alpha p)%Q <$> wins.
Let b : list Q := (λ c, inject_Z c + beta p)%Q <$> losses.







End Posterior.





End BanditProps.

(** ** The acquisition functions *)

Module AcquisitionProps.
Import Acquisition AcquisitionSpec.

Lemma foldl_max_spec (ys : list Q) (v : Q) :
  let m := foldl (λ m x, if Qle_bool m x then x else m) v ys in
  m ∈ v :: ys ∧ (v <= m)%Q ∧ Forall (λ y, y <= m)%Q ys.
Proof.
  revert v. induction ys as [|y ys IH]; intros v; simpl.
  - repeat split; [by left|lra|done].
  - destruct (Qle_bool v y) eqn:Hvy.
    + apply Qle_bool_iff in Hvy.
      destruct (IH y) as (Hin & Hle & Hall).
      repeat split; [by right|lra|]. by constructor.
    + apply BetaFacts.Qle_bool_false in Hvy.
      destruct (IH v) as (Hin & Hle & Hall).
      repeat split; [|lra|constructor; [lra|done]].
      apply elem_of_cons in Hin as [->|Hin]; [by left|by do 2 right].
Qed.

Lemma column_max_is_maximum (ys : list Q) : is_maximum ys (column_max ys).
Proof.
  destruct ys as [|v ys]; simpl; [done|].
  destruct (foldl_max_spec ys v) as (Hin & Hle & Hall).
  split; [done|]. by constructor.
Qed.

(** What [filter_attributes] keeps under each name. *)
Lemma filter_attributes_lookup (object : gmap string PyValue)
    (ps : list string) (k : string) :
  filter_attributes object ps !! k
  = if decide (k ∈ ps ∧ k ∉ ["self"; "kwargs"]) then object !! k else None.
Proof.
  unfold filter_attributes. induction ps as [|p ps IH].
  - simpl. by rewrite lookup_empty.
  - cbn [omap list_omap].
    destruct (decide (k ∈ p :: ps ∧ k ∉ ["self"; "kwargs"])) as [[Hk Hi]|Hk].
    + destruct (decide (p ∈ ["self"; "kwargs"])) as [Hp|Hp].
      * rewrite IH, decide_True; [done|]. split; [|done].
        apply elem_of_cons in Hk as [->|Hk]; done.
      * destruct (decide (k = p)) as [->|Hne].
        -- destruct (object !! p) as [v|] eqn:Hv; simpl.
           ++ by rewrite lookup_insert_eq.
           ++ rewrite IH. by case_decide.
        -- apply elem_of_cons in Hk as [->|Hk]; [done|].
           destruct (object !! p) as [v|] eqn:Hv; simpl.
           ++ rewrite lookup_insert_ne, IH, decide_True by done. done.
           ++ by rewrite IH, decide_True.
    + assert (Hps : ¬ (k ∈ ps ∧ k ∉ ["self"; "kwargs"])).
      { intros [H1 H2]. apply Hk. split; [by right|done]. }
      destruct (decide (p ∈ ["self"; "kwargs"])) as [Hp|Hp].
      * by rewrite IH, decide_False.
      * destruct (object !! p) as [v|] eqn:Hv; simpl.
        -- rewrite lookup_insert_ne, IH, decide_False; try done.
           intros ->. apply Hk. split; [by left|done].
        -- by rewrite IH, decide_False.
Qed.

Lemma filter_attributes_unknown (object : gmap string PyValue)
    (ps : list string) (k : string) (v : PyValue) :
  k ∉ ps ∨ k ∈ ["self"; "kwargs"] →
  filter_attributes (<[k := v]> object) ps = filter_attributes object ps.
Proof.
  intros Hk. apply map_eq. intros k'.
  rewrite !filter_attributes_lookup. case_decide as H; [|done].
  destruct H as [H1 H2]. apply lookup_insert_ne. intros ->.
  by destruct Hk.
Qed.

Lemma not_accepted_not_kept (c : BotorchClass) (k : string) :
  k ∉ signature_parameters c →
  k ∉ init_parameters c ∨ k ∈ ["self"; "kwargs"].
Proof.
  intros Hk. unfold init_parameters.
  destruct (decide (k = "self")) as [->|Hne].
  - right. by left.
  - left. intros [->|H]%elem_of_cons; done.
Qed.

Section ToBotorch.

Context {Surrogate TensorT : Type}.
Variable botorch_acquisition : gmap string BotorchClass.
Variable to_tensor : DataFrame → TensorT.

(** C8.  Let the class of the acquisition function be found in
    [botorch.acquisition].  [to_botorch] takes the Monte-Carlo branch
    (the call of [get_acquisition_function] with the tag, the adapter,
    the observed inputs and the identity objective) exactly when the
    tag starts with "q".  On the analytic branch, with the observed
    outcomes in one column, it constructs the class on the adapter with
    keyword arguments that hold [best_f], the maximum of the outcomes,
    exactly when the class signature has a [best_f] parameter, and
    otherwise the filtered fields.  On both branches the keyword
    arguments hold nothing under a name that the class signature does
    not accept, and a configuration field with such a name changes
    nothing: the call neither fails nor differs. *)
Theorem to_botorch_dispatch (self : AcquisitionFunction)
    (surrogate : Surrogate) (train_x train_y : DataFrame)
    (acqf_cls : BotorchClass) :
  botorch_acquisition !! class_name self = Some acqf_cls →
  let fields := filter_attributes (attributes self)
                  (init_parameters acqf_cls) in
  (∀ r, to_botorch botorch_acquisition to_tensor self surrogate
          train_x train_y = inr r →
     match r with
     | get_acquisition_function _ _ _ _ _ =>
         String.prefix "q" (_abbreviation self) = true
     | AnalyticAcqf _ _ _ =>
         String.prefix "q" (_abbreviation self) = false
     end)
  ∧ (String.prefix "q" (_abbreviation self) = true →
     to_botorch botorch_acquisition to_tensor self surrogate
       train_x train_y
     = inr (get_acquisition_function (_abbreviation self)
              (Adapter surrogate) (to_tensor train_x)
              IdentityMCObjective fields))
  ∧ (String.prefix "q" (_abbreviation self) = false →
     ∀ name ys, columns train_y = [(name, ys)] →
     ∃ kwargs best_f,
       to_botorch botorch_acquisition to_tensor self surrogate
         train_x train_y
       = inr (AnalyticAcqf (class_name self) (Adapter surrogate) kwargs)
       ∧ is_maximum ys best_f
       ∧ ("best_f" ∈ signature_parameters acqf_cls →
          kwargs !! "best_f" = Some (PyFloat best_f))
       ∧ ("best_f" ∉ signature_parameters acqf_cls →
          kwargs !! "best_f" = None)
       ∧ (∀ k, k ≠ "best_f" → kwargs !! k = fields !! k))
  ∧ (∀ k, k ∉ signature_parameters acqf_cls → fields !! k = None)
  ∧ (∀ k v, k ∉ signature_parameters acqf_cls →
     to_botorch botorch_acquisition to_tensor (with_field k v self)
       surrogate train_x train_y
     = to_botorch botorch_acquisition to_tensor self surrogate
         train_x train_y).
Proof.
  intros Hcls fields.
  assert (Hdrop : ∀ k, k ∉ signature_parameters acqf_cls →
                       fields !! k = None).
  { intros k Hk. unfold fields.
    rewrite filter_attributes_lookup, decide_False; [done|].
    intros [Hin Hign].
    destruct (not_accepted_not_kept acqf_cls k Hk); done. }
  unfold to_botorch, is_mc. simpl. rewrite Hcls. fold fields.
  split; [|split; [|split; [|split]]].
  - intros r. destruct (String.prefix "q" (_abbreviation self)); simpl.
    + by intros [= <-].
    + destruct (max_item train_y); [done|]. by intros [= <-].
  - by intros ->.
  - intros -> name ys Hcol. simpl. unfold max_item. rewrite Hcol.
    eexists _, (column_max ys). split; [done|].
    split; [apply column_max_is_maximum|].
    case_decide as Hb.
    + split; [intros _; by rewrite lookup_insert_eq|].
      split; [done|]. intros k Hk. by rewrite lookup_insert_ne.
    + split; [done|]. split; [|done]. intros _. by apply Hdrop.
  - exact Hdrop.
  - intros k v Hk.
    by rewrite filter_attributes_unknown
      by (by apply not_accepted_not_kept).
Qed.

End ToBotorch.

(** Expected improvement with a recognised field [maximize] and an
    unrecognised field [junk], on the outcomes 1, 3, 2. *)
Lemma to_botorch_dispatch_witness :
  let botorch : gmap string BotorchClass :=
    {[ "ExpectedImprovement" :=
         {| signature_parameters :=
              ["model"; "best_f"; "posterior_transform"; "maximize"] |} ]} in
  let self := mkAcqf "ExpectedImprovement" "EI"
                {[ "maximize" := PyBool true; "junk" := PyNone ]} in
  let train_x := {| columns := [("arm", [1; 0; 0]%Q)] |} in
  let train_y := {| columns := [("y", [1; 3; 2]%Q)] |} in
  ∃ kwargs best_f,
    to_botorch botorch id self tt train_x train_y
    = inr (AnalyticAcqf "ExpectedImprovement" (Adapter tt) kwargs)
    ∧ is_maximum [1; 3; 2]%Q best_f
    ∧ kwargs !! "best_f" = Some (PyFloat best_f)
    ∧ kwargs !! "junk" = None.
Proof.
  intros botorch self train_x train_y.
  destruct (to_botorch_dispatch botorch id self tt train_x train_y
              {| signature_parameters :=
                   ["model"; "best_f"; "posterior_transform"; "maximize"] |})
    as (_ & _ & Hanalytic & Hdrop & _).
  - reflexivity.
  - destruct (Hanalytic eq_refl "y" [1; 3; 2]%Q eq_refl)
      as (kwargs & best_f & Hcall & Hmax & Hbest & _ & Hother).
    exists kwargs, best_f. split; [exact Hcall|]. split; [exact Hmax|].
    split.
    + apply Hbest. simpl. by apply list_elem_of_In; simpl; auto.
    + rewrite Hother by done. apply Hdrop. simpl.
      intros H%list_elem_of_In. simpl in H. by intuition.
Defined.

(** *** The deprecation hook *)

Section Hook.

Context {Cls Obj : Type}.

Lemma deprecated_name_lookup (old new : string) :
  deprecated_name old new ↔ UCB_DEPRECATIONS !! old = Some new.
Proof.
  unfold deprecated_name, UCB_DEPRECATIONS. split.
  - by intros [[-> ->]|[-> ->]].
  - destruct (decide (old = "VarUCB")) as [->|H1].
    { rewrite lookup_insert_eq. intros [= <-]. by left. }
    rewrite lookup_insert_ne by done.
    destruct (decide (old = "qVarUCB")) as [->|H2].
    { rewrite lookup_singleton_eq. intros [= <-]. by right. }
    by rewrite lookup_singleton_ne.
Qed.

(** C9.  Let the persisted configuration carry a deprecated tag
    ("VarUCB" or "qVarUCB").  Whatever the wrapped hook does, structuring
    the configuration calls the hook on nothing but the configuration of
    the modern replacement ("UpperConfidenceBound" or
    "qUpperConfidenceBound") with [beta = 100.0]: the outcome is the one
    of structuring that configuration directly, and the warnings are
    those of structuring it directly preceded by one deprecation
    warning. *)
Theorem deprecated_tag_remapped (hook : @Hook Cls Obj) (cls : Cls)
    (val : Val) (old new : string) :
  tagged val old → deprecated_name old new →
  _add_deprecation_hook hook val cls
  = (DeprecationWarning (deprecation_message old new)
       :: (hook (modern_configuration new) cls).1,
     (hook (modern_configuration new) cls).2)
  ∧ _add_deprecation_hook hook (modern_configuration new) cls
    = hook (modern_configuration new) cls.
Proof.
  intros Htag Hdep. pose proof Hdep as Hl%deprecated_name_lookup.
  split.
  - unfold _add_deprecation_hook.
    assert (entry_of val = inr (PyStr old)) as ->.
    { destruct Htag as [->|(d & -> & Hd)]; simpl; [done|by rewrite Hd]. }
    simpl. rewrite Hl. simpl. fold (modern_configuration new).
    by destruct (hook (modern_configuration new) cls).
  - unfold _add_deprecation_hook, modern_configuration. simpl.
    rewrite lookup_insert_eq. simpl.
    assert (UCB_DEPRECATIONS !! new = None) as ->; [|done].
    by destruct Hdep as [[_ ->]|[_ ->]].
Qed.

End Hook.

(** A persisted dictionary with the tag "qVarUCB" and a stale field,
    structured by a hook that validates the tag. *)
Lemma deprecated_tag_remapped_witness :
  let hook : @Hook unit string := λ val _,
    match val with
    | ValDict d =>
        match d !! "type" with
        | Some (PyStr "qUpperConfidenceBound") => ([], inr "qUCB(beta=100)")
        | _ => ([], inl ValueError)
        end
    | ValStr _ => ([], inl ValueError)
    end in
  let val := ValDict {[ "type" := PyStr "qVarUCB"; "stale" := PyNone ]} in
  _add_deprecation_hook hook val tt
  = ([DeprecationWarning
        (deprecation_message "qVarUCB" "qUpperConfidenceBound")],
     inr "qUCB(beta=100)").
Proof.
  intros hook val.
  destruct (deprecated_tag_remapped hook tt val "qVarUCB"
              "qUpperConfidenceBound") as [H _].
  - right. exists {[ "type" := PyStr "qVarUCB"; "stale" := PyNone ]}.
    by split.
  - by right.
  - exact H.
Defined.

End AcquisitionProps.

(** ** More about the sufficient statistics *)

Module FitMore.
Import Tensor BanditSpec Numeric TensorFacts NumericFacts FitFacts.
Import Bandit BanditProps Observations.

Lemma encoded_table_inv (x y : Tensor.t Q) :
  encoded_table x y = true →
  wf x ∧ width y = 1 ∧ nrows x = nrows y
  ∧ Forall (λ yr, length yr = 1) (rows y)
  ∧ Forall (λ r, forallb (λ v, Qeq_bool v 0 || Qeq_bool v 1) r = true)
           (rows x).
Proof.
  unfold encoded_table. rewrite !andb_true_iff.
  intros [[[[Hx Hy] Hw] Hn] Hoh].
  apply Nat.eqb_eq in Hw, Hn. apply wfb_wf in Hx, Hy.
  repeat split; try done.
  - unfold wf in Hy. by rewrite Hw in Hy.
  - apply Forall_forall. intros r Hr. rewrite forallb_forall in Hoh.
    apply list_elem_of_In, Hoh in Hr. unfold one_hot in Hr.
    by apply andb_true_iff in Hr as [Hr _].
Qed.

Lemma valid_encoded (pos neg : Q) (x y : Tensor.t Q) :
  valid_training_table pos neg x y = true → encoded_table x y = true.
Proof.
  unfold valid_training_table, encoded_table. rewrite !andb_true_iff.
  tauto.
Qed.

(** The conversion to an integer does not depend on the representation of
    the rational. *)
Lemma to_int_inject_Z (q : Q) (n : Z) :
  (q == inject_Z n)%Q → to_int q = cast32 n.
Proof. intros H. unfold to_int. by rewrite (trunc_inject_Z q n). Qed.

(** On an encoded table, the masked column sums converted to integers are
    the row of counts. *)
Lemma masked_column_sums_encoded (c : Q) (x y : Tensor.t Q) :
  encoded_table x y = true →
  ∃ sums, masked_column_sums x y c = Some sums
    ∧ length sums = width x
    ∧ to_int <$> sums = count_row x y c.
Proof.
  intros (Hx & Hw & Hn & Hy & H01)%encoded_table_inv.
  unfold masked_column_sums.
  rewrite broadcast_mask by done. simpl. eexists; split; [done|].
  unfold sum_axis0; simpl.
  assert (Hlen : Forall (λ r : list Q, length r = width x)
            (zip_with (λ rx yr,
               (λ v, v * bool_to_float (outcome_is c yr))%Q <$> rx)
               (rows x) (rows y))).
  { unfold wf in Hx. clear -Hx. revert Hx.
    generalize (rows y) as ys, (rows x) as rs, (width x) as w.
    intros ys rs w Hx. revert ys.
    induction Hx as [|r rs Hr Hrs IH]; intros [|yr ys]; simpl;
      constructor; auto. by rewrite length_fmap. }
  split; [by apply sum_rows_length|].
  apply list_eq. intros j. unfold count_row.
  rewrite !list_lookup_fmap.
  destruct (decide (j < width x)) as [Hj|Hj].
  - rewrite (sum_rows_lookup (width x)), lookup_seq_lt by done. simpl.
    f_equal. apply to_int_inject_Z. by apply colsum_masked.
  - rewrite lookup_seq_ge by lia.
    rewrite (lookup_ge_None_2 (foldr _ _ _)); [done|].
    rewrite (sum_rows_length (width x)) by done. lia.
Qed.

(** [_fit] on an encoded table, in closed form. *)
Lemma fit_encoded (pos neg : Q) (x y : Tensor.t Q) (self : Surrogate) :
  encoded_table x y = true →
  single_ohe (_searchspace self) →
  _fit pos neg x y self
  = (mkSurrogate (prior self)
       (Some (mk (width x) [count_row x y pos; count_row x y neg]))
       (_searchspace self), inr tt).
Proof.
  intros He Hss. rewrite fit_unfold.
  rewrite (proj2 (passes_check_single_ohe _) Hss).
  destruct (masked_column_sums_encoded pos x y He) as (wq & -> & Hlw & Hw).
  destruct (masked_column_sums_encoded neg x y He) as (lq & -> & Hll & Hl).
  unfold vstack2. rewrite decide_True by congruence.
  unfold Tensor.map; simpl. by rewrite Hw, Hl, Hlw.
Qed.

Lemma countb_app {A} (f : A → bool) (l1 l2 : list A) :
  countb f (l1 ++ l2) = countb f l1 + countb f l2.
Proof.
  induction l1 as [|a l1 IH]; [done|]. simpl. rewrite !countb_cons, IH.
  by destruct (f a).
Qed.

Lemma countb_Permutation {A} (f : A → bool) (l1 l2 : list A) :
  l1 ≡ₚ l2 → countb f l1 = countb f l2.
Proof.
  induction 1 as [|a l1 l2 _ IH|a b l|l1 l2 l3 _ IH1 _ IH2];
    rewrite ?countb_cons; try done.
  - by rewrite IH.
  - by destruct (f a), (f b).
  - congruence.
Qed.

Lemma forallb_Forall {A} (f : A → bool) (l : list A) :
  forallb f l = true ↔ Forall (λ a, f a = true) l.
Proof.
  induction l as [|a l IH]; simpl.
  - split; [by constructor|done].
  - rewrite andb_true_iff, Forall_cons, IH. done.
Qed.

(** A list of observations is an encoded table exactly when every
    observation is a one-hot row of the right width with one outcome. *)
Lemma encoded_observations (w : nat) (obs : list observation) :
  encoded_table (inputs w obs) (outcomes obs) = true
  ↔ Forall (λ o, length o.1 = w ∧ one_hot o.1 = true ∧ length o.2 = 1) obs.
Proof.
  unfold encoded_table, inputs, outcomes, wfb, nrows; simpl.
  rewrite !length_fmap, Nat.eqb_refl, !andb_true_r, !andb_true_iff.
  rewrite !forallb_Forall, !Forall_fmap.
  rewrite !Forall_forall. split.
  - intros [[Hx Hy] Hoh] o Ho.
    specialize (Hx o Ho). specialize (Hy o Ho). specialize (Hoh o Ho).
    simpl in *. apply Nat.eqb_eq in Hx, Hy. done.
  - intros H. repeat split; intros o Ho; destruct (H o Ho) as (? & ? & ?);
      simpl; try done; by apply Nat.eqb_eq.
Qed.

Lemma count_rows_observations (w : nat) (obs : list observation)
    (j : nat) (c : Q) :
  count_rows (inputs w obs) (outcomes obs) j c
  = countb (λ o, selects j o.1 && outcome_is c o.2) obs.
Proof. unfold count_rows, inputs, outcomes; simpl. by rewrite zip_fst_snd. Qed.

(** X1.  Whatever the arguments, [_fit] ends in one of three ways: it
    raises [IncompatibleSearchSpaceError], or it raises [RuntimeError] (the
    tensors do not broadcast) with a search space that passed the check, in
    both cases leaving the surrogate as it was; or it returns, and then the
    prior and the search space are the old ones and the statistics are a
    table of exactly two rows whose length is the table's width. *)
Theorem fit_outcomes (pos neg : Q) (train_x train_y : Tensor.t Q)
    (self : Surrogate) :
  match _fit pos neg train_x train_y self with
  | (self', inl e) =>
      self' = self
      ∧ (e = IncompatibleSearchSpaceError ∧ ¬ single_ohe (_searchspace self)
         ∨ e = RuntimeError ∧ single_ohe (_searchspace self))
  | (self', inr _) =>
      single_ohe (_searchspace self)
      ∧ prior self' = prior self
      ∧ _searchspace self' = _searchspace self
      ∧ ∃ N wins losses, trained_with self' N wins losses
  end.
Proof.
  rewrite fit_unfold.
  destruct (passes_check (_searchspace self)) eqn:Hc.
  - apply passes_check_single_ohe in Hc.
    destruct (masked_column_sums train_x train_y pos) as [wins|];
      [|by split; [|right]].
    destruct (masked_column_sums train_x train_y neg) as [losses|];
      [|by split; [|right]].
    unfold vstack2. case_decide as Hlen; [|by split; [|right]].
    repeat split; try done.
    exists (length wins), (to_int <$> wins), (to_int <$> losses).
    unfold trained_with, Tensor.map; simpl.
    by rewrite !length_fmap.
  - split; [done|]. left. split; [done|].
    intros H%passes_check_single_ohe. congruence.
Qed.

(** X2.  With a search space that passes the check, candidate and outcome
    tensors whose numbers of rows differ, neither of them being 1, make
    [_fit] raise [RuntimeError]; the surrogate stays as it was. *)
Theorem fit_row_mismatch (pos neg : Q) (train_x train_y : Tensor.t Q)
    (self : Surrogate) :
  single_ohe (_searchspace self) →
  nrows train_x ≠ nrows train_y → nrows train_x ≠ 1 → nrows train_y ≠ 1 →
  _fit pos neg train_x train_y self = (self, inl RuntimeError).
Proof.
  intros Hss Hne Hx Hy. rewrite fit_unfold.
  rewrite (proj2 (passes_check_single_ohe _) Hss).
  assert (masked_column_sums train_x train_y pos = None) as ->; [|done].
  unfold masked_column_sums, broadcast2.
  assert (nrows (Tensor.map (λ y, Qeq_bool y pos) train_y) = nrows train_y)
    as -> by (unfold nrows, Tensor.map; simpl; by rewrite length_fmap).
  assert (broadcast_dim (nrows train_x) (nrows train_y) = None) as ->; [|done].
  unfold broadcast_dim. by rewrite !decide_False by done.
Qed.

(** Two candidate rows against three outcomes. *)
Lemma fit_row_mismatch_witness :
  let self := mkSurrogate default_prior (Some (mk 2 [[3; 1]; [0; 2]]%Z))
                (Some {| parameters := [CategoricalParameter "arm" OHE] |}) in
  _fit 1 0 (mk 2 [[1; 0]; [0; 1]]%Q) (mk 1 [[1]; [0]; [1]]%Q) self
  = (self, inl RuntimeError).
Proof.
  intros self. apply fit_row_mismatch.
  - by eexists.
  - by vm_compute.
  - by vm_compute.
  - by vm_compute.
Defined.

(** X3.  The statistics do not depend on the order of the observations:
    [_fit] on a permutation of an encoded table returns, with the same
    result as on the table itself. *)
Theorem fit_permutation (pos neg : Q) (w : nat) (obs obs' : list observation)
    (self : Surrogate) :
  obs ≡ₚ obs' →
  encoded_table (inputs w obs) (outcomes obs) = true →
  single_ohe (_searchspace self) →
  ∃ self',
    _fit pos neg (inputs w obs) (outcomes obs) self = (self', inr tt)
    ∧ _fit pos neg (inputs w obs') (outcomes obs') self = (self', inr tt).
Proof.
  intros Hp He Hss.
  assert (He' : encoded_table (inputs w obs') (outcomes obs') = true).
  { apply encoded_observations. rewrite <- Hp. by apply encoded_observations. }
  rewrite !fit_encoded by done. eexists; split; [done|].
  do 5 f_equal; [|f_equal]; unfold count_row; simpl.
  all: apply list_fmap_ext; intros _ j _; do 2 f_equal.
  all: rewrite !count_rows_observations; symmetry.
  all: by apply countb_Permutation.
Qed.

(** Three observations over two arms, and the same in another order. *)
Lemma fit_permutation_witness :
  let ss := {| parameters := [CategoricalParameter "arm" OHE] |} in
  let self := with_searchspace ss (new default_prior) in
  let o1 : observation := ([1; 0], [1])%Q in
  let o2 : observation := ([0; 1], [0])%Q in
  let o3 : observation := ([1; 0], [0])%Q in
  ∃ self',
    _fit 1 0 (inputs 2 [o1; o2; o3]) (outcomes [o1; o2; o3]) self
    = (self', inr tt)
    ∧ _fit 1 0 (inputs 2 [o3; o1; o2]) (outcomes [o3; o1; o2]) self
      = (self', inr tt).
Proof.
  intros ss self o1 o2 o3. apply fit_permutation.
  - symmetry. apply (Permutation_cons_append [o1; o2] o3).
  - by vm_compute.
  - by eexists.
Defined.

Lemma count_row_lookup (x y : Tensor.t Q) (c : Q) (j : nat) :
  j < width x →
  count_row x y c !! j = Some (cast32 (Z.of_nat (count_rows x y j c))).
Proof.
  intros Hj. unfold count_row.
  by rewrite list_lookup_fmap, lookup_seq_lt.
Qed.

Lemma entry_fit_encoded (pos neg : Q) (x y : Tensor.t Q) (self : Surrogate)
    (i j : nat) :
  encoded_table x y = true → single_ohe (_searchspace self) →
  i < 2 → j < width x →
  entry (_fit pos neg x y self).1 i j
  = Some (cast32 (Z.of_nat
            (count_rows x y j (if decide (i = 0) then pos else neg)))).
Proof.
  intros He Hss Hi Hj. rewrite fit_encoded by done.
  unfold entry; simpl.
  destruct i as [|[|i]]; simpl; [| |lia]; by apply count_row_lookup.
Qed.

(** X4.  The statistics are additive over the observations: when an
    encoded table of fewer than 2^31 rows is split in two, every entry of
    the table stored for the whole is the sum of the entries stored for the
    two parts. *)
Theorem fit_concatenation (pos neg : Q) (w : nat) (A B : list observation)
    (self : Surrogate) :
  encoded_table (inputs w (A ++ B)) (outcomes (A ++ B)) = true →
  single_ohe (_searchspace self) →
  (Z.of_nat (length (A ++ B)) < 2 ^ 31)%Z →
  ∃ selfA selfB selfAB,
    _fit pos neg (inputs w A) (outcomes A) self = (selfA, inr tt)
    ∧ _fit pos neg (inputs w B) (outcomes B) self = (selfB, inr tt)
    ∧ _fit pos neg (inputs w (A ++ B)) (outcomes (A ++ B)) self
      = (selfAB, inr tt)
    ∧ ∀ i j, i < 2 → j < w →
        ∃ a b, entry selfA i j = Some a ∧ entry selfB i j = Some b
          ∧ entry selfAB i j = Some (a + b)%Z.
Proof.
  intros He Hss Hsize.
  pose proof He as [HA HB]%encoded_observations%Forall_app.
  apply encoded_observations in HA, HB.
  exists (_fit pos neg (inputs w A) (outcomes A) self).1,
         (_fit pos neg (inputs w B) (outcomes B) self).1,
         (_fit pos neg (inputs w (A ++ B)) (outcomes (A ++ B)) self).1.
  split; [by rewrite fit_encoded|]. split; [by rewrite fit_encoded|].
  split; [by rewrite fit_encoded|].
  intros i j Hi Hj. eexists _, _.
  rewrite !entry_fit_encoded by done.
  split; [done|]. split; [done|]. f_equal.
  rewrite !count_rows_observations, countb_app.
  match goal with |- context [@countb ?T ?g A] =>
    pose proof (@countb_le_length T g A);
    pose proof (@countb_le_length T g B)
  end.
  rewrite length_app in Hsize. unfold observation in *.
  rewrite !cast32_small by lia. lia.
Qed.

(** Two observations, then one more. *)
Lemma fit_concatenation_witness :
  let ss := {| parameters := [CategoricalParameter "arm" OHE] |} in
  let self := with_searchspace ss (new default_prior) in
  let A : list observation := [([1; 0], [1]); ([0; 1], [0])]%Q in
  let B : list observation := [([1; 0], [1])]%Q in
  ∃ selfA selfB selfAB,
    _fit 1 0 (inputs 2 A) (outcomes A) self = (selfA, inr tt)
    ∧ _fit 1 0 (inputs 2 B) (outcomes B) self = (selfB, inr tt)
    ∧ _fit 1 0 (inputs 2 (A ++ B)) (outcomes (A ++ B)) self
      = (selfAB, inr tt)
    ∧ ∀ i j, i < 2 → j < 2 →
        ∃ a b, entry selfA i j = Some a ∧ entry selfB i j = Some b
          ∧ entry selfAB i j = Some (a + b)%Z.
Proof.
  intros ss self A B. apply fit_concatenation.
  - by vm_compute.
  - by eexists.
  - by vm_compute.
Defined.

Lemma Qeq_bool_false (x y : Q) : ¬ (x == y)%Q → Qeq_bool x y = false.
Proof.
  intros H. destruct (Qeq_bool x y) eqn:Hxy; [|done].
  by apply Qeq_bool_eq in Hxy.
Qed.

(** X5.  An observation whose outcome equals neither sentinel counts for
    nothing: with or without it, at whatever position, [_fit] returns the
    same surrogate. *)
Theorem fit_ignores_other_outcomes (pos neg : Q) (w : nat)
    (obs1 obs2 : list observation) (r : list Q) (v : Q) (self : Surrogate) :
  ¬ (v == pos)%Q → ¬ (v == neg)%Q →
  encoded_table (inputs w (obs1 ++ (r, [v]) :: obs2))
                (outcomes (obs1 ++ (r, [v]) :: obs2)) = true →
  single_ohe (_searchspace self) →
  ∃ self',
    _fit pos neg (inputs w (obs1 ++ (r, [v]) :: obs2))
                 (outcomes (obs1 ++ (r, [v]) :: obs2)) self = (self', inr tt)
    ∧ _fit pos neg (inputs w (obs1 ++ obs2)) (outcomes (obs1 ++ obs2)) self
      = (self', inr tt).
Proof.
  intros Hpos Hneg He Hss.
  assert (He' : encoded_table (inputs w (obs1 ++ obs2))
                              (outcomes (obs1 ++ obs2)) = true).
  { apply encoded_observations.
    apply encoded_observations, Forall_app in He as [H1 H2].
    apply Forall_app. split; [done|]. by inversion H2. }
  rewrite !fit_encoded by done. eexists; split; [done|].
  do 5 f_equal; [|f_equal]; unfold count_row; simpl.
  all: apply list_fmap_ext; intros _ j _; do 2 f_equal.
  all: rewrite !count_rows_observations, !countb_app, countb_cons; simpl.
  all: by rewrite Qeq_bool_false, andb_false_r by done.
Qed.

(** A third observation with the outcome 1/2, between a win and a loss. *)
Lemma fit_ignores_other_outcomes_witness :
  let ss := {| parameters := [CategoricalParameter "arm" OHE] |} in
  let self := with_searchspace ss (new default_prior) in
  let o1 : observation := ([1; 0], [1])%Q in
  let o2 : observation := ([0; 1], [0])%Q in
  ∃ self',
    _fit 1 0 (inputs 2 ([o1] ++ ([1; 0], [1 # 2])%Q :: [o2]))
             (outcomes ([o1] ++ ([1; 0], [1 # 2])%Q :: [o2])) self
    = (self', inr tt)
    ∧ _fit 1 0 (inputs 2 ([o1] ++ [o2])) (outcomes ([o1] ++ [o2])) self
      = (self', inr tt).
Proof.
  intros ss self o1 o2. apply fit_ignores_other_outcomes.
  - by vm_compute.
  - by vm_compute.
  - by vm_compute.
  - by eexists.
Defined.

End FitMore.

(** ** More about the queries *)

(** ** The range of the stored counts *)

Module FitRange.
Import Tensor BanditSpec Numeric TensorFacts NumericFacts FitFacts.
Import Bandit BanditProps Observations FitMore.

Lemma forallb_replicate {A} (f : A → bool) (n : nat) (a : A) :
  f a = true → forallb f (replicate n a) = true.
Proof. intros Ha. induction n as [|n IH]; simpl; [done|]. by rewrite Ha, IH. Qed.

Lemma countb_replicate {A} (f : A → bool) (n : nat) (a : A) :
  countb f (replicate n a) = if f a then n else 0.
Proof.
  induction n as [|n IH]; simpl.
  - by destruct (f a).
  - rewrite countb_cons, IH. by destruct (f a).
Qed.

Lemma repeated_win_valid (n : nat) :
  valid_training_table 1 0 (repeated_win_x n) (repeated_win_y n) = true.
Proof.
  unfold valid_training_table, repeated_win_x, repeated_win_y, wfb, nrows.
  cbn [width rows].
  rewrite !forallb_replicate by reflexivity.
  rewrite !length_replicate, !Nat.eqb_refl. reflexivity.
Qed.

Lemma repeated_win_count (n : nat) (c : Q) :
  count_rows (repeated_win_x n) (repeated_win_y n) 0 c
  = if Qeq_bool 1 c then n else 0.
Proof.
  unfold count_rows, repeated_win_x, repeated_win_y. cbn [rows].
  rewrite zip_with_replicate, countb_replicate.
  unfold selects, outcome_is. cbn. by destruct (Qeq_bool 1 c).
Qed.

(** What [_fit] stores for an arm that won [n] times. *)
Lemma fit_repeated_win (n : nat) (self : Surrogate) :
  single_ohe (_searchspace self) →
  _fit 1 0 (repeated_win_x n) (repeated_win_y n) self
  = (mkSurrogate (prior self)
       (Some (mk 1 [[cast32 (Z.of_nat n)]; [0%Z]]))
       (_searchspace self), inr tt).
Proof.
  intros Hss. rewrite fit_encoded; [|exact (valid_encoded 1 0 _ _ (repeated_win_valid n))|exact Hss].
  unfold count_row. cbn [width repeated_win_x seq fmap list_fmap].
  change (mk 1 (replicate n [1%Q])) with (repeated_win_x n).
  by rewrite !repeated_win_count.
Qed.

(** C1, as stated, fails: without a bound on the number of rows the stored
    entries need not be counts.  One arm that won 2^31 times: the sum of
    its column, 2^31, is outside the 32-bit range, and the entry stored
    for it is [-2^31], a negative number. *)
Lemma fit_sufficient_statistics_counterexample :
  ¬ (∀ (pos neg : Q) (train_x train_y : Tensor.t Q) (self : Surrogate),
       ¬ (pos == neg)%Q →
       valid_training_table pos neg train_x train_y = true →
       single_ohe (_searchspace self) →
       ∃ wins losses self',
         _fit pos neg train_x train_y self = (self', inr tt)
         ∧ _win_lose_counts self' = Some (mk (width train_x) [wins; losses])
         ∧ length wins = width train_x ∧ length losses = width train_x
         ∧ Forall (λ c, 0 ≤ c)%Z wins ∧ Forall (λ c, 0 ≤ c)%Z losses
         ∧ ∀ j, j < width train_x →
             wins !! j = Some (Z.of_nat (count_rows train_x train_y j pos))
             ∧ losses !! j
               = Some (Z.of_nat (count_rows train_x train_y j neg))
             ∧ count_rows train_x train_y j pos
               + count_rows train_x train_y j neg
               = rows_of_arm train_x j).
Proof.
  intros H.
  assert (Hn : ∃ n, Z.of_nat n = (2 ^ 31)%Z).
  { exists (Z.to_nat (2 ^ 31)). apply Z2Nat.id. by apply Z.pow_nonneg. }
  destruct Hn as [n Hn].
  set (self := with_searchspace
                 {| parameters := [CategoricalParameter "arm" OHE] |}
                 (new default_prior)).
  assert (Hss : single_ohe (_searchspace self)) by (by eexists).
  destruct (H 1%Q 0%Q (repeated_win_x n) (repeated_win_y n) self)
    as (wins & losses & self' & Hfit & Hc & _ & _ & Hw & _).
  - by intros [=].
  - apply repeated_win_valid.
  - exact Hss.
  - rewrite (fit_repeated_win n self Hss) in Hfit.
    injection Hfit as <-. simpl in Hc. injection Hc as <- _.
    rewrite Hn in Hw. apply Forall_cons_1 in Hw as [Hw _].
    by vm_compute in Hw.
Qed.

End FitRange.

Module QueryMore.
Import Tensor BanditSpec Numeric TensorFacts NumericFacts FitFacts.
Import Bandit BanditProps Observations FitMore.

(** X6.  The three methods that read the statistics never change the
    surrogate, whatever they are given and however they end. *)
Theorem queries_leave_surrogate (self : Surrogate) (candidates : Tensor.t Q) :
  (_posterior_beta_parameters self).1 = self
  ∧ (maximum_a_posteriori_per_arm self).1 = self
  ∧ (_posterior candidates self).1 = self.
Proof.
  destruct (_posterior_beta_parameters self) as [s' r] eqn:Hp.
  pose proof (posterior_beta_parameters_pure _ _ _ Hp) as ->.
  split; [done|]. split.
  - unfold maximum_a_posteriori_per_arm. run_method. rewrite Hp.
    destruct r as [e|params]; [done|].
    by destruct (Beta.make_from_rows params).
  - unfold _posterior. run_method. rewrite Hp.
    destruct r as [e|params]; [done|].
    destruct (argmax_last candidates) as [idx|]; [|done]. simpl.
    destruct (index_rows (transpose params) idx) as [sel|]; [|done].
    cbv beta iota delta [mret M_ret raise].
    destruct (split_columns sel) as [|c1 [|c0 [|??]]]; try done.
    by destruct (Beta.make c1 c0).
Qed.

(** Solves [float32 q] for a closed [q], given significand and exponent. *)
Ltac float32_by m e :=
  exists m, e; split; [lia|split; [lia|by vm_compute]].

(** X21.  Where nothing is rounded, the posterior parameters are the
    counts plus the prior.  For a trained surrogate whose counts, prior
    shape parameters and sums of the two are floats,
    [_posterior_beta_parameters] returns (leaving the surrogate as it is)
    the table whose entry for arm [j] is the stored win count plus the
    prior's [alpha] in row 0 and the stored loss count plus the prior's
    [beta] in row 1; and when the prior is valid and no count is
    negative, every entry of both rows is strictly greater than zero. *)
Theorem posterior_beta_parameters_exact (self : Surrogate) (N : nat)
    (wins losses : list Z) :
  trained_with self N wins losses →
  Forall (λ c, exact_sum c (alpha (prior self))) wins →
  Forall (λ c, exact_sum c (beta (prior self))) losses →
  ∃ a b,
    _posterior_beta_parameters self = (self, inr (mk N [a; b]))
    ∧ length a = N ∧ length b = N
    ∧ (∀ j w, wins !! j = Some w →
         a !! j = Some (inject_Z w + alpha (prior self))%Q)
    ∧ (∀ j l, losses !! j = Some l →
         b !! j = Some (inject_Z l + beta (prior self))%Q)
    ∧ (valid_prior (prior self) →
       Forall (λ c, 0 ≤ c)%Z wins → Forall (λ c, 0 ≤ c)%Z losses →
       Forall (λ v, 0 < v)%Q a ∧ Forall (λ v, 0 < v)%Q b).
Proof.
  intros Ht _ _. pose proof Ht as (Hc & Hw & Hl).
  eexists _, _. split; [by apply posterior_beta_parameters_trained|].
  rewrite !length_fmap. repeat split; try done.
  - intros j w Hj. by rewrite list_lookup_fmap, Hj.
  - intros j l Hj. by rewrite list_lookup_fmap, Hj.
  - destruct H as [Ha _]. apply Forall_fmap.
    eapply Forall_impl; [eassumption|]. intros c Hc0; simpl in *.
    by apply count_plus_prior_pos.
  - destruct H as [_ Hb]. apply Forall_fmap.
    eapply Forall_impl; [eassumption|]. intros c Hc0; simpl in *.
    by apply count_plus_prior_pos.
Qed.

(** Counts [5, 0] and [2, 0] under the prior Beta(1/2, 3): the posterior
    parameters are [11/2, 1/2] and [5, 3]. *)
Lemma posterior_beta_parameters_exact_witness :
  let self := mkSurrogate {| alpha := 1 # 2; beta := 3 |}
                (Some (mk 2 [[5; 0]; [2; 0]]%Z)) None in
  ∃ a b,
    _posterior_beta_parameters self = (self, inr (mk 2 [a; b]))
    ∧ a !! 0 = Some (inject_Z 5 + (1 # 2))%Q
    ∧ b !! 1 = Some (inject_Z 0 + 3)%Q
    ∧ Forall (λ v, 0 < v)%Q a ∧ Forall (λ v, 0 < v)%Q b.
Proof.
  intros self.
  destruct (posterior_beta_parameters_exact self 2 [5; 0]%Z [2; 0]%Z)
    as (a & b & Hp & _ & _ & Ha & Hb & Hpos).
  - by repeat split.
  - repeat constructor.
    + float32_by 5%Z 0%Z.
    + float32_by 1%Z (-1)%Z.
    + float32_by 11%Z (-1)%Z.
    + float32_by 0%Z 0%Z.
    + float32_by 1%Z (-1)%Z.
    + float32_by 1%Z (-1)%Z.
  - repeat constructor.
    + float32_by 2%Z 0%Z.
    + float32_by 3%Z 0%Z.
    + float32_by 5%Z 0%Z.
    + float32_by 0%Z 0%Z.
    + float32_by 3%Z 0%Z.
    + float32_by 3%Z 0%Z.
  - exists a, b. split; [exact Hp|].
    split; [by apply Ha|]. split; [by apply Hb|].
    apply Hpos.
    + by split.
    + repeat constructor; lia.
    + repeat constructor; lia.
Defined.








Lemma inject_Z_pos (z : Z) : (0 < z)%Z → (0 < inject_Z z)%Q.
Proof. intros H. unfold Qlt; simpl. lia. Qed.

Lemma inject_Z_ge1 (z : Z) : (1 ≤ z)%Z → (1 <= inject_Z z)%Q.
Proof. intros H. unfold Qle; simpl. lia. Qed.

(** The mode under the uniform prior is the observed frequency. *)
Lemma mode1_uniform (w l : Z) (al be : Q) :
  (al == 1)%Q → (be == 1)%Q → (0 ≤ w)%Z → (0 ≤ l)%Z →
  ((0 < w + l)%Z →
     ∃ v, Beta.mode1 (inject_Z w + al, inject_Z l + be)%Q = Some v
       ∧ (v == inject_Z w / inject_Z (w + l))%Q)
  ∧ ((w + l = 0)%Z →
     Beta.mode1 (inject_Z w + al, inject_Z l + be)%Q = None).
Proof.
  intros Hal Hbe Hw Hl.
  destruct (BetaFacts.mode1_cases (inject_Z w + al) (inject_Z l + be))
    as (Hint & Hnan & Hzero & Hone).
  split.
  - intros Hpos. rewrite inject_Z_plus.
    destruct (decide (w = 0%Z)) as [->|Hw0];
      [|destruct (decide (l = 0%Z)) as [->|Hl0]].
    + pose proof (inject_Z_ge1 l ltac:(lia)).
      change (inject_Z 0) with 0%Q in *.
      destruct Hzero as (v & Hv & Hv0); [lra|lra|].
      exists v. split; [done|]. rewrite Hv0. field. lra.
    + pose proof (inject_Z_ge1 w ltac:(lia)).
      change (inject_Z 0) with 0%Q in *.
      destruct Hone as (v & Hv & Hv1); [lra|lra|].
      exists v. split; [done|]. rewrite Hv1. field. lra.
    + pose proof (inject_Z_ge1 w ltac:(lia)).
      pose proof (inject_Z_ge1 l ltac:(lia)).
      destruct Hint as (v & Hv & Hvi); [lra|lra|].
      exists v. split; [done|]. rewrite Hvi.
      rewrite Hal, Hbe. field. lra.
  - intros H0. assert (w = 0%Z) as -> by lia. assert (l = 0%Z) as -> by lia.
    change (inject_Z 0) with 0%Q in *.
    apply Hnan. repeat split; lra.
Qed.

(** The mode, where it is a number, is a probability. *)
Lemma mode1_range (a b v : Q) :
  Beta.mode1 (a, b) = Some v → (0 <= v <= 1)%Q.
Proof.
  unfold Beta.mode1; simpl.
  destruct (Beta.lt1 a && Beta.lt1 b); [intros [= <-]; lra|].
  unfold Beta.fdiv.
  destruct (Qeq_bool _ 0) eqn:Hz; [done|]. intros [= <-].
  apply Qeq_bool_neq in Hz.
  assert (Hc : ∀ x, (0 <= Beta.clamp0 x)%Q).
  { intros x. unfold Beta.clamp0. destruct (Qle_bool x 0) eqn:Hx; [lra|].
    apply BetaFacts.Qle_bool_false in Hx. lra. }
  pose proof (Hc (a - 1)%Q) as Ha. pose proof (Hc (b - 1)%Q) as Hb.
  set (x := Beta.clamp0 (a - 1)) in *. set (y := Beta.clamp0 (b - 1)) in *.
  assert (Hs : (0 < x + y)%Q).
  { destruct (Qlt_le_dec 0 (x + y)) as [?|Hle]; [done|].
    destruct Hz. lra. }
  split.
  - apply Qle_shift_div_l; [done|]. lra.
  - apply Qle_shift_div_r; [done|]. lra.
Qed.

Lemma maximum_a_posteriori_lookup (self : Surrogate) (N : nat)
    (wins losses : list Z) (j : nat) (w l : Z) :
  trained_with self N wins losses →
  valid_prior (prior self) →
  Forall (λ c, 0 ≤ c)%Z wins → Forall (λ c, 0 ≤ c)%Z losses →
  wins !! j = Some w → losses !! j = Some l →
  ∃ modes,
    maximum_a_posteriori_per_arm self = (self, inr modes)
    ∧ length modes = N
    ∧ modes !! j
      = Some (Beta.mode1 (inject_Z w + alpha (prior self),
                          inject_Z l + beta (prior self))%Q).
Proof.
  intros Ht Hp Hw Hl Hjw Hjl. pose proof Ht as (_ & Hlw & Hll).
  assert (HN : 0 < N) by (apply lookup_lt_Some in Hjw; lia).
  eexists. split; [by apply (maximum_a_posteriori_trained self N)|].
  split.
  - by rewrite length_fmap, length_zip, !length_fmap, Hlw, Hll, Nat.min_id.
  - by rewrite list_lookup_fmap, lookup_zip_with, !list_lookup_fmap, Hjw, Hjl.
Qed.

(** X8.  Under the uniform prior the maximum a posteriori win rate of an
    arm is its observed frequency: with [w] wins and [l] losses stored for
    the arm, the value is [w / (w + l)] when the arm was observed, and
    not-a-number when it was not. *)
Theorem map_uniform_prior_frequency (self : Surrogate) (N : nat)
    (wins losses : list Z) (j : nat) (w l : Z) :
  trained_with self N wins losses →
  (alpha (prior self) == 1)%Q → (beta (prior self) == 1)%Q →
  Forall (λ c, 0 ≤ c)%Z wins → Forall (λ c, 0 ≤ c)%Z losses →
  wins !! j = Some w → losses !! j = Some l →
  ∃ modes m,
    maximum_a_posteriori_per_arm self = (self, inr modes)
    ∧ modes !! j = Some m
    ∧ ((0 < w + l)%Z →
       ∃ v, m = Some v ∧ (v == inject_Z w / inject_Z (w + l))%Q)
    ∧ ((w + l = 0)%Z → m = None).
Proof.
  intros Ht Hal Hbe Hw Hl Hjw Hjl.
  assert (Hp : valid_prior (prior self)) by (split; lra).
  destruct (maximum_a_posteriori_lookup self N wins losses j w l)
    as (modes & Hmap & _ & Hm); try done.
  exists modes. eexists. split; [done|]. split; [done|].
  rewrite Forall_lookup in Hw, Hl.
  apply mode1_uniform; eauto.
Qed.

(** Wins [5, 0, 0] and losses [2, 3, 0] under the uniform prior: arm 0 has
    the value 5/7. *)
Lemma map_uniform_prior_frequency_witness :
  let self := mkSurrogate default_prior
                (Some (mk 3 [[5; 0; 0]; [2; 3; 0]]%Z)) None in
  ∃ modes v,
    maximum_a_posteriori_per_arm self = (self, inr modes)
    ∧ modes !! 0 = Some (Some v) ∧ (v == 5 # 7)%Q.
Proof.
  intros self.
  destruct (map_uniform_prior_frequency self 3 [5; 0; 0]%Z [2; 3; 0]%Z
              0 5%Z 2%Z) as (modes & m & Hmap & Hm & Hfreq & _).
  - by repeat split.
  - reflexivity.
  - reflexivity.
  - repeat constructor; lia.
  - repeat constructor; lia.
  - reflexivity.
  - reflexivity.
  - destruct Hfreq as (v & -> & Hv); [lia|].
    exists modes, v. split; [done|]. split; [done|]. by rewrite Hv.
Defined.

(** X9.  Training and query together: after [_fit] on an encoded table of
    fewer than 2^31 rows, a surrogate with the uniform prior reports for
    every arm the fraction of the arm's sentinel outcomes that are positive,
    and not-a-number for an arm without any. *)
Theorem fit_then_map_frequency (pos neg : Q) (train_x train_y : Tensor.t Q)
    (self : Surrogate) (j : nat) :
  encoded_table train_x train_y = true →
  single_ohe (_searchspace self) →
  (Z.of_nat (nrows train_x) < 2 ^ 31)%Z →
  (alpha (prior self) == 1)%Q → (beta (prior self) == 1)%Q →
  j < width train_x →
  let nw := count_rows train_x train_y j pos in
  let nl := count_rows train_x train_y j neg in
  ∃ self' modes m,
    _fit pos neg train_x train_y self = (self', inr tt)
    ∧ maximum_a_posteriori_per_arm self' = (self', inr modes)
    ∧ modes !! j = Some m
    ∧ (0 < nw + nl →
       ∃ v, m = Some v
         ∧ (v == inject_Z (Z.of_nat nw) / inject_Z (Z.of_nat (nw + nl)))%Q)
    ∧ (nw + nl = 0 → m = None).
Proof.
  intros He Hss Hsize Hal Hbe Hj nw nl.
  rewrite fit_encoded by done.
  set (self' := mkSurrogate _ _ _).
  assert (Hsmall : ∀ c k, cast32 (Z.of_nat (count_rows train_x train_y k c))
                          = Z.of_nat (count_rows train_x train_y k c)).
  { intros c k. apply cast32_small.
    pose proof (count_rows_le train_x train_y k c). lia. }
  assert (Hnn : ∀ c, Forall (λ z, 0 ≤ z)%Z (count_row train_x train_y c)).
  { intros c. apply Forall_fmap, Forall_forall. intros k _; simpl.
    rewrite Hsmall. lia. }
  assert (Hp : valid_prior (prior self')) by (split; simpl; lra).
  destruct (maximum_a_posteriori_lookup self' (width train_x)
              (count_row train_x train_y pos) (count_row train_x train_y neg)
              j (Z.of_nat nw) (Z.of_nat nl))
    as (modes & Hmap & _ & Hm); try done.
  - repeat split; unfold count_row; by rewrite length_fmap, length_seq.
  - by rewrite count_row_lookup, Hsmall.
  - by rewrite count_row_lookup, Hsmall.
  - destruct (mode1_uniform (Z.of_nat nw) (Z.of_nat nl)
                (alpha (prior self')) (beta (prior self')))
      as [Hfreq Hnan]; try done; try lia.
    exists self', modes. eexists.
    split; [done|]. split; [done|]. split; [exact Hm|]. split.
    + intros Hpos. rewrite Nat2Z.inj_add. apply Hfreq. lia.
    + intros H0. apply Hnan. lia.
Qed.

(** Four observations over two arms: arm 0 won two of three, arm 1 lost
    its only one. *)
Lemma fit_then_map_frequency_witness :
  let ss := {| parameters := [CategoricalParameter "arm" OHE] |} in
  let self := with_searchspace ss (new default_prior) in
  let x := mk 2 [[1; 0]; [1; 0]; [0; 1]; [1; 0]]%Q in
  let y := mk 1 [[1]; [0]; [0]; [1]]%Q in
  ∃ self' modes v,
    _fit 1 0 x y self = (self', inr tt)
    ∧ maximum_a_posteriori_per_arm self' = (self', inr modes)
    ∧ modes !! 0 = Some (Some v) ∧ (v == 2 # 3)%Q.
Proof.
  intros ss self x y.
  destruct (fit_then_map_frequency 1 0 x y self 0)
    as (self' & modes & m & Hfit & Hmap & Hm & Hfreq & _).
  - by vm_compute.
  - by eexists.
  - by vm_compute.
  - reflexivity.
  - reflexivity.
  - simpl. lia.
  - destruct Hfreq as (v & -> & Hv); [vm_compute; lia|].
    exists self', modes, v. split; [done|]. split; [done|].
    split; [done|]. exact Hv.
Defined.

(** X10.  For a trained surrogate of at least one arm, with a valid
    prior and non-negative counts, [maximum_a_posteriori_per_arm] returns
    one value per arm, and every value that it reports as a number lies
    between 0 and 1. *)
Theorem map_is_probability (self : Surrogate) (N : nat)
    (wins losses : list Z) :
  trained_with self N wins losses →
  0 < N →
  valid_prior (prior self) →
  Forall (λ c, 0 ≤ c)%Z wins → Forall (λ c, 0 ≤ c)%Z losses →
  ∃ modes,
    maximum_a_posteriori_per_arm self = (self, inr modes)
    ∧ length modes = N
    ∧ Forall (λ m, ∀ v, m = Some v → 0 <= v <= 1)%Q modes.
Proof.
  intros Ht HN Hp Hw Hl. pose proof Ht as (_ & Hlw & Hll).
  eexists. split; [by apply (maximum_a_posteriori_trained self N)|].
  split.
  - by rewrite length_fmap, length_zip, !length_fmap, Hlw, Hll, Nat.min_id.
  - apply Forall_fmap, Forall_forall. intros [a b] _ v; simpl.
    apply mode1_range.
Qed.

(** Counts [5, 0, 3] and [2, 4, 0] under the prior Beta(1/2, 2). *)
Lemma map_is_probability_witness :
  let self := mkSurrogate {| alpha := 1 # 2; beta := 2 |}
                (Some (mk 3 [[5; 0; 3]; [2; 4; 0]]%Z)) None in
  ∃ modes,
    maximum_a_posteriori_per_arm self = (self, inr modes)
    ∧ length modes = 3
    ∧ Forall (λ m, ∀ v, m = Some v → 0 <= v <= 1)%Q modes.
Proof.
  intros self.
  apply (map_is_probability self 3 [5; 0; 3]%Z [2; 4; 0]%Z).
  - by repeat split.
  - lia.
  - by split.
  - repeat constructor; lia.
  - repeat constructor; lia.
Defined.

End QueryMore.

(** ** More about the acquisition functions *)

Module AcquisitionMore.
Import Acquisition AcquisitionSpec AcquisitionProps.

Section ToBotorch.

Context {Surrogate TensorT : Type}.
Variable botorch_acquisition : gmap string BotorchClass.
Variable to_tensor : DataFrame → TensorT.

(** X11.  Two failures of [to_botorch] that precede its call into
    botorch.  A class name that [botorch.acquisition] does not have raises
    [AttributeError], on either branch.  With the class found, the
    analytic branch raises [ValueError] unless the observed outcomes have
    exactly one column, also for a class that takes no [best_f]. *)
Theorem to_botorch_failures (self : AcquisitionFunction)
    (surrogate : Surrogate) (train_x train_y : DataFrame) :
  let result :=
    to_botorch botorch_acquisition to_tensor self surrogate train_x train_y in
  (botorch_acquisition !! class_name self = None →
   result = inl AttributeError)
  ∧ (is_Some (botorch_acquisition !! class_name self) →
     is_mc self = false →
     length (columns train_y) ≠ 1 →
     result = inl ValueError).
Proof.
  unfold to_botorch, max_item. split.
  - by intros ->.
  - intros [cls ->] -> Hcols. simpl.
    by destruct (columns train_y) as [|[name ys] [|??]].
Qed.

(** X12.  The Monte-Carlo branch never reads the observed outcomes and the
    analytic branch never reads the observed inputs: replacing the frame
    that the branch does not use leaves the result as it is. *)
Theorem to_botorch_unused_frame (self : AcquisitionFunction)
    (surrogate : Surrogate) (train_x train_y other : DataFrame) :
  to_botorch botorch_acquisition to_tensor self surrogate train_x train_y
  = to_botorch botorch_acquisition to_tensor self surrogate
      (if is_mc self then train_x else other)
      (if is_mc self then other else train_y).
Proof.
  unfold to_botorch.
  destruct (botorch_acquisition !! class_name self) as [cls|]; [|done].
  by destruct (is_mc self).
Qed.

End ToBotorch.

(** A class that botorch does not have; and the upper confidence bound,
    which takes no [best_f], on outcomes of two columns. *)
Lemma to_botorch_failures_witness :
  let botorch : gmap string BotorchClass :=
    {[ "UpperConfidenceBound" :=
         {| signature_parameters :=
              ["model"; "beta"; "posterior_transform"; "maximize"] |} ]} in
  let train_x := {| columns := [("arm", [1; 0]%Q)] |} in
  let train_y := {| columns := [("y", [1; 3]%Q); ("z", [0; 2]%Q)] |} in
  to_botorch botorch id (mkAcqf "NoSuchClass" "NSC" ∅) tt train_x train_y
  = inl AttributeError
  ∧ to_botorch botorch id (mkAcqf "UpperConfidenceBound" "UCB" ∅) tt
      train_x train_y
    = inl ValueError.
Proof.
  intros botorch train_x train_y. split.
  - by apply (to_botorch_failures botorch id (mkAcqf "NoSuchClass" "NSC" ∅)
                tt train_x train_y).
  - apply (to_botorch_failures botorch id
             (mkAcqf "UpperConfidenceBound" "UCB" ∅) tt train_x train_y).
    + by eexists.
    + reflexivity.
    + simpl. lia.
Defined.

Section Hook.

Context {Cls Obj : Type}.

Lemma deprecated_tag (tag : string) :
  deprecated (PyStr tag)
  = inr ((λ new, (tag, new)) <$> UCB_DEPRECATIONS !! tag).
Proof. done. Qed.

Lemma entry_of_tagged (val : Val) (tag : string) :
  tagged val tag → entry_of val = inr (PyStr tag).
Proof. intros [->|(d & -> & Hd)]; simpl; [done|by rewrite Hd]. Qed.

Lemma not_deprecated_lookup (tag : string) :
  tag ≠ "VarUCB" → tag ≠ "qVarUCB" → UCB_DEPRECATIONS !! tag = None.
Proof.
  intros H1 H2. unfold UCB_DEPRECATIONS.
  by rewrite lookup_insert_ne, lookup_singleton_ne.
Qed.

(** X13.  A configuration whose tag is not one of the two deprecated names
    goes to the wrapped hook as it is, and no warning is added. *)
Theorem other_tags_pass_through (hook : @Hook Cls Obj) (cls : Cls)
    (val : Val) (tag : string) :
  tagged val tag → tag ≠ "VarUCB" → tag ≠ "qVarUCB" →
  _add_deprecation_hook hook val cls = hook val cls.
Proof.
  intros Htag H1 H2. unfold _add_deprecation_hook.
  rewrite (entry_of_tagged val tag Htag), deprecated_tag.
  by rewrite not_deprecated_lookup.
Qed.

(** X14.  A dictionary without a ["type"] entry raises [KeyError], and one
    whose ["type"] entry is unhashable raises [TypeError]; in both cases
    the wrapped hook is not called and nothing is warned. *)
Theorem malformed_configuration (hook : @Hook Cls Obj) (cls : Cls)
    (d : gmap string PyValue) :
  (d !! "type" = None →
   _add_deprecation_hook hook (ValDict d) cls = ([], inl KeyError))
  ∧ (∀ l, d !! "type" = Some (PyList l) →
     _add_deprecation_hook hook (ValDict d) cls = ([], inl TypeError)).
Proof.
  unfold _add_deprecation_hook; simpl. split.
  - by intros ->.
  - by intros l ->.
Qed.

(** X15.  Wrapping a hook twice is the same as wrapping it once: the second
    layer sees the replacement tag, which is not deprecated, so that a
    deprecated configuration is still warned about once. *)
Theorem add_deprecation_hook_idempotent (hook : @Hook Cls Obj) (cls : Cls)
    (val : Val) :
  _add_deprecation_hook (_add_deprecation_hook hook) val cls
  = _add_deprecation_hook hook val cls.
Proof.
  destruct (entry_of val) as [e|entry] eqn:He.
  { unfold _add_deprecation_hook. by rewrite He. }
  destruct (deprecated entry) as [e|[[old new]|]] eqn:Hdep.
  - unfold _add_deprecation_hook. by rewrite He, Hdep.
  - assert (Hnew : UCB_DEPRECATIONS !! new = None).
    { destruct entry; simpl in Hdep; try done.
      destruct (UCB_DEPRECATIONS !! s) eqn:Hs; simpl in Hdep; [|done].
      inversion Hdep; subst.
      by apply deprecated_name_lookup in Hs as [[_ ->]|[_ ->]]. }
    unfold _add_deprecation_hook at 1 3. rewrite He, Hdep.
    unfold _add_deprecation_hook. simpl.
    by rewrite lookup_insert_eq, deprecated_tag, Hnew.
  - unfold _add_deprecation_hook at 1. by rewrite He, Hdep.
Qed.

End Hook.

(** The tag of a current class, in a dictionary with another field. *)
Lemma other_tags_pass_through_witness :
  let hook : @Hook unit string := λ val _,
    match val with
    | ValDict d => ([], inr (if d !! "beta" is Some _ then "with beta"
                             else "default"))
    | ValStr _ => ([], inl ValueError)
    end in
  _add_deprecation_hook hook
    (ValDict {[ "type" := PyStr "qExpectedImprovement";
                "beta" := PyFloat (Some 2%Q) ]}) tt
  = ([], inr "with beta").
Proof.
  intros hook.
  rewrite (other_tags_pass_through hook tt _ "qExpectedImprovement").
  - reflexivity.
  - right. eexists. split; [reflexivity|]. reflexivity.
  - done.
  - done.
Defined.

(** A dictionary with a [beta] only, and one whose type is a list. *)
Lemma malformed_configuration_witness :
  let hook : @Hook unit string := λ _ _, ([], inr "structured") in
  _add_deprecation_hook hook (ValDict {[ "beta" := PyFloat (Some 2%Q) ]}) tt
  = ([], inl KeyError)
  ∧ _add_deprecation_hook hook
      (ValDict {[ "type" := PyList [PyStr "VarUCB"] ]}) tt
    = ([], inl TypeError).
Proof.
  intros hook. split.
  - apply (malformed_configuration hook tt). reflexivity.
  - apply (proj2 (malformed_configuration hook tt _) [PyStr "VarUCB"]).
    reflexivity.
Defined.

End AcquisitionMore.

(** ** Validation of search space parameters *)

Module ValidationProps.
Import Validation.

Lemma size_list_to_set_le (l : list string) :
  size (list_to_set l : gset string) ≤ length l.
Proof.
  induction l as [|x l IH]; [done|].
  rewrite list_to_set_cons, size_union_alt, size_singleton.
  pose proof (subseteq_size (list_to_set l ∖ {[x]})
                (list_to_set l : gset string)) as Hle.
  simpl. etrans; [|apply le_n_S, IH].
  apply le_n_S, Hle, subseteq_difference_l. done.
Qed.

(** The test of [validate_parameter_names]: the set of the names is as
    large as their list exactly when no name occurs twice. *)
Lemma size_list_to_set_NoDup (l : list string) :
  size (list_to_set l : gset string) = length l ↔ NoDup l.
Proof.
  split; [|apply size_list_to_set].
  induction l as [|x l IH]; [constructor|].
  rewrite list_to_set_cons. intros Hsize. simpl in Hsize.
  destruct (decide (x ∈ l)) as [Hx|Hx].
  - exfalso. pose proof (size_list_to_set_le l).
    rewrite subseteq_union_1_L in Hsize; [lia|].
    apply singleton_subseteq_l. by apply elem_of_list_to_set.
  - apply NoDup_cons. split; [done|]. apply IH.
    rewrite size_union, size_singleton in Hsize; [lia|].
    apply disjoint_singleton_l. by rewrite elem_of_list_to_set.
Qed.

Section Parameters.

Context {P : Type}.
Variable name : P → string.
Variable is_task : P → bool.

Lemma validate_parameter_names_ok (ps : list P) :
  validate_parameter_names name ps = inr tt ↔ NoDup (name <$> ps).
Proof.
  unfold validate_parameter_names. rewrite <- size_list_to_set_NoDup.
  case_decide as H; split; done.
Qed.

Lemma validate_parameter_names_raise (ps : list P) :
  validate_parameter_names name ps = inl ValueError
  ↔ ¬ NoDup (name <$> ps).
Proof.
  unfold validate_parameter_names. rewrite <- size_list_to_set_NoDup.
  case_decide as H; split; done.
Qed.

(** X16.  [validate_parameter_names] returns exactly when the names of the
    parameters are pairwise distinct, and raises [ValueError] otherwise. *)
Theorem validate_parameter_names_unique (ps : list P) :
  (validate_parameter_names name ps = inr tt ↔ NoDup (name <$> ps))
  ∧ (validate_parameter_names name ps = inl ValueError
     ↔ ¬ NoDup (name <$> ps)).
Proof.
  split.
  - apply validate_parameter_names_ok.
  - apply validate_parameter_names_raise.
Qed.

Lemma validate_parameters_ok (ps : list P) :
  validate_parameters name is_task ps = inr tt
  ↔ ps ≠ [] ∧ length (List.filter is_task ps) ≤ 1 ∧ NoDup (name <$> ps).
Proof.
  unfold validate_parameters. destruct ps as [|p ps].
  { split; [done|]. by intros [? _]. }
  case_decide as Ht.
  - split; [done|]. intros (_ & H & _). lia.
  - rewrite validate_parameter_names_ok. split.
    + intros H. repeat split; [done|lia|done].
    + by intros (_ & _ & H).
Qed.

(** X17.  The outcome of [validate_parameters], in the order of its
    checks: an empty list raises [EmptySearchSpaceError]; otherwise more
    than one task parameter raises [NotImplementedError]; otherwise a
    repeated name raises [ValueError]; and it returns exactly when the list
    is not empty, holds at most one task parameter and repeats no name. *)
Theorem validate_parameters_outcomes (ps : list P) :
  let tasks := length (List.filter is_task ps) in
  (validate_parameters name is_task ps = inl EmptySearchSpaceError
   ↔ ps = [])
  ∧ (validate_parameters name is_task ps = inl NotImplementedError
     ↔ ps ≠ [] ∧ 1 < tasks)
  ∧ (validate_parameters name is_task ps = inl ValueError
     ↔ ps ≠ [] ∧ tasks ≤ 1 ∧ ¬ NoDup (name <$> ps))
  ∧ (validate_parameters name is_task ps = inr tt
     ↔ ps ≠ [] ∧ tasks ≤ 1 ∧ NoDup (name <$> ps)).
Proof.
  intros tasks. split; [|split; [|split; [|apply validate_parameters_ok]]].
  - unfold validate_parameters. destruct ps as [|p ps]; [done|].
    split; [|done]. case_decide; [done|].
    unfold validate_parameter_names. by case_decide.
  - unfold validate_parameters. destruct ps as [|p ps].
    { split; [done|]. by intros [? _]. }
    fold tasks. case_decide as Ht.
    + split; [|done]. by intros _.
    + split; [|intros [_ ?]; lia].
      unfold validate_parameter_names. by case_decide.
  - unfold validate_parameters. destruct ps as [|p ps].
    { split; [done|]. by intros [? _]. }
    fold tasks. case_decide as Ht.
    + split; [done|]. intros (_ & ? & _). lia.
    + rewrite validate_parameter_names_raise. split.
      * intros H. repeat split; [done|lia|done].
      * by intros (_ & _ & H).
Qed.

Lemma filter_all {A} (Q : A → Prop) `{∀ a, Decision (Q a)} (l : list A) :
  Forall Q l → filter Q l = l.
Proof.
  induction 1 as [|a l Ha _ IH]; [done|].
  by rewrite filter_cons_True, IH.
Qed.

Lemma difference_empty_subset (l k : list string) :
  (list_to_set l ∖ list_to_set k : gset string) = ∅ ↔ Forall (λ a, a ∈ k) l.
Proof.
  rewrite Forall_forall. split.
  - intros He a Ha. destruct (decide (a ∈ k)) as [|Hk]; [done|].
    assert (a ∈ (list_to_set l ∖ list_to_set k : gset string)) as Hin.
    { apply elem_of_difference. by rewrite !elem_of_list_to_set. }
    rewrite He in Hin. by apply not_elem_of_empty in Hin.
  - intros Hall. apply set_eq. intros a.
    rewrite elem_of_difference, !elem_of_list_to_set. split.
    + intros [Ha Hk]. destruct Hk. by apply Hall.
    + by intros ?%not_elem_of_empty.
Qed.

(** When [get_transform_parameters] returns. *)
Lemma get_transform_parameters_ok (ps : list P) (df : Acquisition.DataFrame)
    (allow_missing allow_extra : bool) (ps' : list P) :
  get_transform_parameters name ps df allow_missing allow_extra = inr ps'
  ↔ (allow_missing = true ∨ Forall (λ p, name p ∈ labels df) ps)
    ∧ (allow_extra = true ∨ Forall (λ c, c ∈ name <$> ps) (labels df))
    ∧ ps' = if allow_missing
            then filter (λ p, name p ∈ labels df) ps else ps.
Proof.
  unfold get_transform_parameters.
  set (missing := (list_to_set (name <$> ps) ∖ list_to_set (labels df)
                   : gset string)).
  set (extra := (list_to_set (labels df) ∖ list_to_set (name <$> ps)
                 : gset string)).
  assert (Hm : missing = ∅ ↔ Forall (λ p, name p ∈ labels df) ps).
  { unfold missing. rewrite difference_empty_subset.
    by rewrite Forall_fmap. }
  assert (He : extra = ∅ ↔ Forall (λ c, c ∈ name <$> ps) (labels df)).
  { apply difference_empty_subset. }
  rewrite <- Hm, <- He. clear Hm He.
  destruct (decide (missing = ∅)) as [Hm|Hm];
    destruct (decide (extra = ∅)) as [He|He].
  all: rewrite ?(bool_decide_eq_false_2 (missing ≠ ∅)) by (by intros ?);
       rewrite ?(bool_decide_eq_false_2 (extra ≠ ∅)) by (by intros ?);
       rewrite ?(bool_decide_eq_true_2 (missing ≠ ∅)) by done;
       rewrite ?(bool_decide_eq_true_2 (extra ≠ ∅)) by done.
  all: destruct allow_missing, allow_extra; simpl.
  all: split; [try done; intros [= <-]; repeat split; auto|].
  all: try (by intros (_ & _ & ->)).
  all: try (intros ([?|?] & _); done).
  all: try (intros (_ & [?|?] & _); done).
Qed.

(** X18.  Whenever [get_transform_parameters] returns, with either
    setting of the two flags, what it returns is exactly the parameters
    whose names are columns of the frame, in their order; when missing
    columns are not allowed these are all the parameters, and when extra
    columns are not allowed every column is the name of a returned
    parameter. *)
Theorem get_transform_parameters_result (ps : list P)
    (df : Acquisition.DataFrame) (allow_missing allow_extra : bool)
    (ps' : list P) :
  get_transform_parameters name ps df allow_missing allow_extra = inr ps' →
  ps' = filter (λ p, name p ∈ labels df) ps
  ∧ (allow_missing = false → ps' = ps)
  ∧ (allow_extra = false →
     Forall (λ c, ∃ p, p ∈ ps' ∧ name p = c) (labels df)).
Proof.
  intros (Hm & He & ->)%get_transform_parameters_ok.
  assert (Hf : (if allow_missing
                then filter (λ p, name p ∈ labels df) ps else ps)
               = filter (λ p, name p ∈ labels df) ps).
  { destruct allow_missing; [done|]. destruct Hm as [?|Hm]; [done|].
    by rewrite filter_all. }
  split; [done|]. split; [by intros ->|].
  intros ->. destruct He as [?|He]; [done|]. rewrite Hf.
  rewrite Forall_forall in He. apply Forall_forall. intros c Hc.
  destruct (proj1 (list_elem_of_fmap _ _ _) (He c Hc)) as (p & -> & Hp).
  exists p. split; [|done]. by apply list_elem_of_filter.
Qed.

Lemma not_Forall_Exists_not {A} (Q : A → Prop) `{∀ a, Decision (Q a)}
    (l : list A) :
  ¬ Forall Q l ↔ Exists (λ a, ¬ Q a) l.
Proof.
  split.
  - intros Hn. apply (not_Forall_Exists Q) in Hn. exact Hn.
  - intros Hex. by apply (Exists_not_Forall Q).
Qed.

(** X19.  [get_transform_parameters] raises nothing but [ValueError], and
    it raises exactly when missing columns are not allowed and some
    parameter has no column, or extra columns are not allowed and some
    column is the name of no parameter.  With both allowed it always
    returns. *)
Theorem get_transform_parameters_raises (ps : list P)
    (df : Acquisition.DataFrame) (allow_missing allow_extra : bool) :
  (∀ e, get_transform_parameters name ps df allow_missing allow_extra = inl e
        → e = ValueError)
  ∧ (get_transform_parameters name ps df allow_missing allow_extra
     = inl ValueError
     ↔ (allow_missing = false ∧ Exists (λ p, name p ∉ labels df) ps)
       ∨ (allow_extra = false
          ∧ Exists (λ c, c ∉ name <$> ps) (labels df))).
Proof.
  assert (Hcases :
    get_transform_parameters name ps df allow_missing allow_extra
    = inl ValueError
    ∨ ∃ ps', get_transform_parameters name ps df allow_missing allow_extra
             = inr ps').
  { unfold get_transform_parameters.
    repeat (case_match; eauto). }
  split.
  - intros e He. destruct Hcases as [H|[ps' H]]; congruence.
  - split.
    + intros Hraise.
      destruct (decide (Forall (λ p, name p ∈ labels df) ps)) as [Hm|Hm];
        destruct (decide (Forall (λ c, c ∈ name <$> ps) (labels df)))
          as [Hx|Hx].
      * assert (get_transform_parameters name ps df allow_missing allow_extra
                = inr (if allow_missing
                       then filter (λ p, name p ∈ labels df) ps else ps))
          by (apply get_transform_parameters_ok; auto).
        congruence.
      * destruct allow_extra.
        { assert (get_transform_parameters name ps df allow_missing true
                  = inr (if allow_missing
                         then filter (λ p, name p ∈ labels df) ps else ps))
            by (apply get_transform_parameters_ok; auto).
          congruence. }
        right. split; [done|]. by apply (not_Forall_Exists_not _ _).
      * destruct allow_missing.
        { assert (get_transform_parameters name ps df true allow_extra
                  = inr (filter (λ p, name p ∈ labels df) ps))
            by (apply get_transform_parameters_ok; auto).
          congruence. }
        left. split; [done|]. by apply (not_Forall_Exists_not _ _).
      * destruct allow_missing.
        { right. destruct allow_extra.
          - assert (get_transform_parameters name ps df true true
                    = inr (filter (λ p, name p ∈ labels df) ps))
              by (apply get_transform_parameters_ok; auto).
            congruence.
          - split; [done|]. by apply (not_Forall_Exists_not _ _). }
        left. split; [done|]. by apply (not_Forall_Exists_not _ _).
    + intros Hex. destruct Hcases as [H|[ps' H]]; [done|]. exfalso.
      apply get_transform_parameters_ok in H as (Hm & Hx & _).
      destruct Hex as [[-> Hex]|[-> Hex]].
      * destruct Hm as [?|Hm]; [done|]. by apply (not_Forall_Exists_not _ _) in Hex.
      * destruct Hx as [?|Hx]; [done|]. by apply (not_Forall_Exists_not _ _) in Hex.
Qed.

Lemma filter_tasks_le (Q : P → Prop) `{∀ p, Decision (Q p)} (ps : list P) :
  length (List.filter is_task (filter Q ps))
  ≤ length (List.filter is_task ps).
Proof.
  induction ps as [|p ps IH]; [done|].
  destruct (decide (Q p)).
  - rewrite filter_cons_True by done. simpl. destruct (is_task p); simpl; lia.
  - rewrite filter_cons_False by done. simpl. destruct (is_task p); simpl; lia.
Qed.

(** X20.  Validated parameters stay valid under the selection for a data
    frame: if [validate_parameters] accepts a list, then whatever
    [get_transform_parameters] returns for it is accepted as well, unless it
    is empty. *)
Theorem transform_parameters_stay_valid (ps : list P)
    (df : Acquisition.DataFrame) (allow_missing allow_extra : bool)
    (ps' : list P) :
  validate_parameters name is_task ps = inr tt →
  get_transform_parameters name ps df allow_missing allow_extra = inr ps' →
  ps' ≠ [] →
  validate_parameters name is_task ps' = inr tt.
Proof.
  intros (_ & Ht & Hn)%validate_parameters_ok
         (_ & _ & ->)%get_transform_parameters_ok Hne.
  apply validate_parameters_ok. split; [done|].
  destruct allow_missing; [|done]. split.
  - etrans; [apply filter_tasks_le|done].
  - eapply sublist_NoDup; [exact Hn|].
    apply fmap_sublist, sublist_filter.
Qed.

End Parameters.

(** Parameters as pairs of a name and the task flag. *)
Lemma get_transform_parameters_result_witness :
  let ps := [("temperature", false); ("solvent", true); ("ratio", false)] in
  let df := {| Acquisition.columns :=
                 [("ratio", [1%Q]); ("temperature", [2%Q])] |} in
  get_transform_parameters fst ps df true false
  = inr [("temperature", false); ("ratio", false)]
  ∧ Forall (λ c, ∃ p, p ∈ [("temperature", false); ("ratio", false)]
                   ∧ p.1 = c) (labels df).
Proof.
  intros ps df.
  assert (H : get_transform_parameters fst ps df true false
              = inr [("temperature", false); ("ratio", false)])
    by (by vm_compute).
  split; [exact H|].
  destruct (get_transform_parameters_result fst ps df true false _ H)
    as (_ & _ & Hcols).
  by apply Hcols.
Defined.

Lemma transform_parameters_stay_valid_witness :
  let ps := [("temperature", false); ("solvent", true); ("ratio", false)] in
  let df := {| Acquisition.columns :=
                 [("ratio", [1%Q]); ("temperature", [2%Q])] |} in
  validate_parameters fst snd [("temperature", false); ("ratio", false)]
  = inr tt.
Proof.
  intros ps df.
  apply (transform_parameters_stay_valid fst snd ps df true false).
  - by vm_compute.
  - by vm_compute.
  - done.
Defined.

End ValidationProps.
